(** * SimuladorMIPS: a five-stage MIPS pipeline simulator (pipeline.js)

    Shallow embedding of the engine class [MIPSPipeline] of
    [src/pipeline.js] and of its program loader, followed by the
    properties of the forwarding unit, the hazard detector, the branch
    predictor, the stage functions, the loader and [reset].

    The repository holds a second, older variant of the same class, whose
    decode stage consults the branch predictor and whose loader knows no
    labels.  The forwarding unit, the predictor methods, write-back and
    [reset] are the same text in both; the embedding follows [pipeline.js].

    Conventions of the embedding.
    - A JavaScript number is modelled by an integer ([VNum n]) or by
      [VNaN]; the doubles' rounding beyond 2^53, the infinities and the
      sign of zero are not modelled (no function below distinguishes
      [-0] from [0]).
    - A JavaScript string is a [string] whose characters are the code
      units below 256.
    - An array ([registradores], [memoria]) is the finite map of its
      properties, so that a write outside the initial range creates the
      property, as in JavaScript.
    - Console logging and the DOM updates ([updateUI], [alert]) have no
      effect on the engine state and are left out. *)

From Stdlib Require Import ZArith NArith Ascii String List Bool Lia.
From Stdlib Require DecimalString.
From stdpp Require Import base decidable option countable gmap strings list fin_maps.

Open Scope Z_scope.

(** ** JavaScript values and operators used by the engine *)

Module JS.

Inductive value : Type :=
| VUndef
| VBool (b : bool)
| VNum (n : Z)
| VNaN.

#[global] Instance value_eq_dec : EqDecision value.
Proof. solve_decision. Defined.

(** [ToNumber]: [None] stands for NaN. *)
Definition to_number (v : value) : option Z :=
  match v with
  | VUndef => None
  | VBool true => Some 1
  | VBool false => Some 0
  | VNum n => Some n
  | VNaN => None
  end.

Definition arith (f : Z -> Z -> Z) (a b : value) : value :=
  match to_number a, to_number b with
  | Some x, Some y => VNum (f x y)
  | _, _ => VNaN
  end.

(** [a + b], [a - b], [a * b] on values that are not strings. *)
Definition add : value -> value -> value := arith Z.add.
Definition sub : value -> value -> value := arith Z.sub.
Definition mul : value -> value -> value := arith Z.mul.

(** [ToBoolean]. *)
Definition truthy (v : value) : bool :=
  match v with
  | VUndef => false
  | VBool b => b
  | VNum n => negb (n =? 0)
  | VNaN => false
  end.

(** [a || b]. *)
Definition or_else (a b : value) : value := if truthy a then a else b.

(** [a === b]: NaN differs from itself. *)
Definition strict_eq (a b : value) : bool :=
  match a, b with
  | VUndef, VUndef => true
  | VBool x, VBool y => Bool.eqb x y
  | VNum x, VNum y => x =? y
  | _, _ => false
  end.

(** A field that holds a number or is missing ([undefined]). *)
Definition of_field (o : option Z) : value :=
  match o with
  | Some n => VNum n
  | None => VUndef
  end.

(** [x === y] on two such fields. *)
Definition field_eq (x y : option Z) : bool := bool_decide (x = y).

(** Property keys of the two arrays.  [KInt i] is the index [i];
    [KFrac a] is the number [a / 4] when 4 does not divide [a];
    [KNaN] and [KUndef] are the keys ["NaN"] and ["undefined"]. *)
Inductive key : Type :=
| KInt (i : Z)
| KFrac (a : Z)
| KNaN
| KUndef.

#[global] Instance key_eq_dec : EqDecision key.
Proof. solve_decision. Defined.

Definition key_enc (k : key) : Z + (Z + bool) :=
  match k with
  | KInt i => inl i
  | KFrac a => inr (inl a)
  | KNaN => inr (inr true)
  | KUndef => inr (inr false)
  end.

Definition key_dec (x : Z + (Z + bool)) : key :=
  match x with
  | inl i => KInt i
  | inr (inl a) => KFrac a
  | inr (inr true) => KNaN
  | inr (inr false) => KUndef
  end.

#[global] Instance key_countable : Countable key.
Proof. apply (inj_countable' key_enc key_dec). by intros []. Defined.

(** The key of [arr[f]] for a register field [f]. *)
Definition field_key (o : option Z) : key :=
  match o with
  | Some n => KInt n
  | None => KUndef
  end.

(** The key of [arr[address / 4]]. *)
Definition div4_key (address : value) : key :=
  match to_number address with
  | Some a => if a mod 4 =? 0 then KInt (a / 4) else KFrac a
  | None => KNaN
  end.

(** [arr[k]]: a missing property reads as [undefined]. *)
Definition get (arr : gmap key value) (k : key) : value :=
  default VUndef (arr !! k).

(** [new Array(n).fill(0)]. *)
Definition zeros (n : nat) : gmap key value :=
  list_to_map (map (fun i => (KInt (Z.of_nat i), VNum 0)) (seq 0 n)).

(** *** Strings *)

Definition code (c : ascii) : N := N_of_ascii c.

Definition between (lo hi : N) (c : ascii) : bool :=
  ((lo <=? code c) && (code c <=? hi))%N.

(** White space and line terminators ([\s], [trim]). *)
Definition is_space (c : ascii) : bool :=
  between 9 13 c || (code c =? 32)%N || (code c =? 160)%N.

(** Line terminators, which [.] does not match. *)
Definition is_line_terminator (c : ascii) : bool :=
  (code c =? 10)%N || (code c =? 13)%N.

Definition is_digit (c : ascii) : bool := between 48 57 c.

(** [\w]. *)
Definition is_word (c : ascii) : bool :=
  between 65 90 c || between 97 122 c || is_digit c || (code c =? 95)%N.

Definition lower_char (c : ascii) : ascii :=
  if between 65 90 c || (between 192 222 c && negb (code c =? 215)%N)
  then ascii_of_N (code c + 32) else c.

Fixpoint toLowerCase (s : string) : string :=
  match s with
  | EmptyString => EmptyString
  | String c r => String (lower_char c) (toLowerCase r)
  end.

Definition is_empty (s : string) : bool :=
  match s with
  | EmptyString => true
  | String _ _ => false
  end.

Fixpoint trimStart (s : string) : string :=
  match s with
  | EmptyString => EmptyString
  | String c r => if is_space c then trimStart r else s
  end.

Fixpoint trimEnd (s : string) : string :=
  match s with
  | EmptyString => EmptyString
  | String c r =>
      let r' := trimEnd r in
      if is_space c && is_empty r' then EmptyString else String c r'
  end.

Definition trim (s : string) : string := trimEnd (trimStart s).

(** The longest prefix of characters satisfying [p], and the rest. *)
Fixpoint span (p : ascii -> bool) (s : string) : string * string :=
  match s with
  | EmptyString => (EmptyString, EmptyString)
  | String c r =>
      if p c then let '(a, b) := span p r in (String c a, b)
      else (EmptyString, s)
  end.

Fixpoint all_chars (p : ascii -> bool) (s : string) : bool :=
  match s with
  | EmptyString => true
  | String c r => p c && all_chars p r
  end.

(** [s.split(sep)] for a one-character separator. *)
Fixpoint split (sep : ascii) (s : string) : list string :=
  match s with
  | EmptyString => [EmptyString]
  | String c r =>
      if Ascii.eqb c sep then EmptyString :: split sep r
      else match split sep r with
           | h :: t => String c h :: t
           | [] => [String c EmptyString]
           end
  end.

(** [s.split(/\s+/)]; [in_sep] tells that the previous character already
    belonged to the separator being read. *)
Fixpoint split_spaces_from (in_sep : bool) (s : string) : list string :=
  match s with
  | EmptyString => [EmptyString]
  | String c r =>
      if is_space c then
        if in_sep then split_spaces_from true r
        else EmptyString :: split_spaces_from true r
      else match split_spaces_from false r with
           | h :: t => String c h :: t
           | [] => [String c EmptyString]
           end
  end.

Definition split_spaces (s : string) : list string := split_spaces_from false s.

(** [s.replace(c, '')]: only the first occurrence goes. *)
Fixpoint remove_first (c : ascii) (s : string) : string :=
  match s with
  | EmptyString => EmptyString
  | String d r => if Ascii.eqb d c then r else String d (remove_first c r)
  end.

Definition startsWith (c : ascii) (s : string) : bool :=
  match s with
  | String d _ => Ascii.eqb d c
  | EmptyString => false
  end.

(** Value of a digit in base 16, when it is one. *)
Definition digit_value (c : ascii) : option Z :=
  if is_digit c then Some (Z.of_N (code c) - 48)
  else if between 97 102 c then Some (Z.of_N (code c) - 87)
  else if between 65 70 c then Some (Z.of_N (code c) - 55)
  else None.

(** Reads the longest prefix of digits of the given radix; [None] when
    there is no digit. *)
Fixpoint read_digits (radix : Z) (acc : option Z) (s : string) : option Z :=
  match s with
  | EmptyString => acc
  | String c r =>
      match digit_value c with
      | Some d =>
          if d <? radix
          then read_digits radix (Some (default 0 acc * radix + d)) r
          else acc
      | None => acc
      end
  end.

(** The sign [parseInt] reads first. *)
Definition strip_sign (s : string) : bool * string :=
  match s with
  | String "-" r => (true, r)
  | String "+" r => (false, r)
  | _ => (false, s)
  end.

(** The hexadecimal prefix [parseInt] accepts after the sign. *)
Definition strip_radix (s : string) : Z * string :=
  match s with
  | String "0" (String "x" r) => (16, r)
  | String "0" (String "X" r) => (16, r)
  | _ => (10, s)
  end.

(** [parseInt(s)] without a radix argument; [None] is NaN. *)
Definition parseInt (s : string) : option Z :=
  let '(negative, s) := strip_sign (trimStart s) in
  let '(radix, s) := strip_radix s in
  match read_digits radix None s with
  | Some n => Some (if negative then - n else n)
  | None => None
  end.

End JS.

(** ** Instruction model *)

Inductive InstructionType : Type := R_TYPE | I_TYPE | J_TYPE | NOP.

#[global] Instance InstructionType_eq_dec : EqDecision InstructionType.
Proof. solve_decision. Defined.

Module Opcode.
Definition ADD : string := "add".
Definition SUB : string := "sub".
Definition MUL : string := "mul".
Definition LW : string := "lw".
Definition SW : string := "sw".
Definition BEQ : string := "beq".
Definition J : string := "j".
Definition NOP : string := "nop".
End Opcode.

Module BranchState.
Definition STRONGLY_TAKEN : Z := 3.
Definition WEAKLY_TAKEN : Z := 2.
Definition WEAKLY_NOT_TAKEN : Z := 1.
Definition STRONGLY_NOT_TAKEN : Z := 0.
End BranchState.

(** An instruction object.  A field the object literal does not set is
    [None] and reads as [undefined]. *)
Record Instruction : Type := mkInstruction {
  type : InstructionType;
  opcode : string;
  rs : option Z;
  rt : option Z;
  rd : option Z;
  offset : option Z;
  target : option Z;
  labelName : option string
}.

#[global] Instance Instruction_eq_dec : EqDecision Instruction.
Proof. solve_decision. Defined.

(** The object [{ type: InstructionType.NOP, opcode: 'nop' }]. *)
Definition nop : Instruction :=
  mkInstruction NOP "nop" None None None None None None.

(** [RegisterAlias]: [$s0] .. [$s31]. *)
Definition RegisterAlias : gmap string Z :=
  list_to_map
    (map (fun i => ("$s" +:+ DecimalString.NilZero.string_of_uint (Nat.to_uint i),
                    Z.of_nat i))
         (seq 0 32)).

(** ** Program loader *)

(** The regular expression of [loadProgram], anchored at both ends: a
    label (one or more word characters), a colon, optional white space and
    the rest of the line.  It returns the two groups.  The label is the
    longest run of word characters, which a colon must follow; after the
    longest run of white space the rest of the string must be free of line
    terminators, since the dot does not match them and the dollar is the
    end of the string. *)
Definition labelMatch (s : string) : option (string * string) :=
  let '(label, after) := JS.span JS.is_word s in
  if JS.is_empty label then None
  else match after with
       | String ":" r =>
           let rest := JS.trimStart r in
           if JS.all_chars (fun c => negb (JS.is_line_terminator c)) rest
           then Some (label, rest) else None
       | _ => None
       end.

(** The regular expression of [lw] and [sw] operands, tried at the
    beginning of [s]: an optional minus sign and digits (first group), an
    opening parenthesis, a dollar followed by word characters (second
    group) and a closing parenthesis. *)
Definition offsetMatch_here (s : string) : option (string * string) :=
  let '(sign, s1) :=
    match s with
    | String "-" r => ("-", r)
    | _ => ("", s)
    end in
  let '(digits, s2) := JS.span JS.is_digit s1 in
  if JS.is_empty digits then None
  else match s2 with
       | String "(" (String "$" s3) =>
           let '(name, s4) := JS.span JS.is_word s3 in
           if JS.is_empty name then None
           else match s4 with
                | String ")" _ => Some (sign +:+ digits, "$" +:+ name)
                | _ => None
                end
       | _ => None
       end.

(** The leftmost match of that expression in [s] (it is not anchored). *)
Fixpoint offsetMatch (s : string) : option (string * string) :=
  match offsetMatch_here s with
  | Some m => Some m
  | None =>
      match s with
      | EmptyString => None
      | String _ r => offsetMatch r
      end
  end.

Definition parseRegister (str : string) : option Z :=
  let str := JS.trim (JS.remove_first "," str) in
  RegisterAlias !! str.

Definition parseRTypeInstruction (parts : list string) : option Instruction :=
  match parts with
  | [p0; p1; p2; p3] =>
      match parseRegister p1, parseRegister p2, parseRegister p3 with
      | Some rd, Some rs, Some rt =>
          Some (mkInstruction R_TYPE p0 (Some rs) (Some rt) (Some rd) None None None)
      | _, _, _ => None
      end
  | _ => None
  end.

(** [labels.has(tok) ? labels.get(tok) : parseInt(tok)]; [None] is NaN. *)
Definition resolve (labels : gmap string Z) (tok : string) : option Z :=
  match labels !! tok with
  | Some index => Some index
  | None => JS.parseInt tok
  end.

Definition label_of (labels : gmap string Z) (tok : string) : option string :=
  match labels !! tok with
  | Some _ => Some tok
  | None => None
  end.

Definition parseITypeInstruction (parts : list string) (labels : gmap string Z)
  : option Instruction :=
  match parts with
  | [] => None
  | p0 :: _ =>
      let opcode := JS.toLowerCase p0 in
      if String.eqb opcode "beq" then
        match parts with
        | [_; p1; p2; p3] =>
            match parseRegister p1, parseRegister p2, resolve labels p3 with
            | Some rs, Some rt, Some offset =>
                Some (mkInstruction I_TYPE "beq" (Some rs) (Some rt) None
                        (Some offset) None (label_of labels p3))
            | _, _, _ => None
            end
        | _ => None
        end
      else if String.eqb opcode "lw" || String.eqb opcode "sw" then
        match parts with
        | [_; p1; p2] =>
            match offsetMatch p2 with
            | None => None
            | Some (g1, g2) =>
                (* [g1] is an optional minus sign and digits: [parseInt]
                   of it is a number, see [offsetMatch_parseInt] *)
                match parseRegister g2, parseRegister p1, JS.parseInt g1 with
                | Some rs, Some rt, Some offset =>
                    Some (mkInstruction I_TYPE opcode (Some rs) (Some rt) None
                            (Some offset) None None)
                | _, _, _ => None
                end
            end
        | _ => None
        end
      else None
  end.

Definition parseJTypeInstruction (parts : list string) (labels : gmap string Z)
  : option Instruction :=
  match parts with
  | [p0; p1] =>
      match resolve labels p1 with
      | Some target =>
          Some (mkInstruction J_TYPE p0 None None None None (Some target)
                  (label_of labels p1))
      | None => None
      end
  | _ => None
  end.

Definition parseInstruction (line : string) (labels : gmap string Z)
  : option Instruction :=
  let line := JS.trim (hd EmptyString (JS.split "#" line)) in
  if JS.is_empty line then None
  else
    match JS.split_spaces line with
    | [] => None
    | p0 :: operands =>
        let opcode := JS.toLowerCase p0 in
        let parts := p0 :: map (fun p => JS.trim (JS.remove_first "," p)) operands in
        if String.eqb opcode "add" || String.eqb opcode "sub" || String.eqb opcode "mul"
        then parseRTypeInstruction parts
        else if String.eqb opcode "lw" || String.eqb opcode "sw" || String.eqb opcode "beq"
        then parseITypeInstruction parts labels
        else if String.eqb opcode "j" then parseJTypeInstruction parts labels
        else if String.eqb opcode "nop" then Some nop
        else None
    end.

(** The text of a line once trimmed and stripped of its label: what both
    passes of [loadProgram] compute first. *)
Definition instructionText (line : string) : string :=
  let trimmedLine := JS.trim line in
  match labelMatch trimmedLine with
  | Some (_, rest) => JS.trim rest
  | None => trimmedLine
  end.

(** [trimmedLine && !trimmedLine.startsWith('#')]: the line takes an
    address. *)
Definition holdsInstruction (line : string) : bool :=
  let text := instructionText line in
  negb (JS.is_empty text) && negb (JS.startsWith "#" text).

(** First pass: one line; the state is the address counter and the label
    table. *)
Definition firstPass_line (st : Z * gmap string Z) (line : string)
  : Z * gmap string Z :=
  let '(address, labels) := st in
  let labels :=
    match labelMatch (JS.trim line) with
    | Some (label, _) => <[label := address / 4]> labels
    | None => labels
    end in
  if holdsInstruction line then (address + 4, labels) else (address, labels).

Definition firstPass (lines : list string) : gmap string Z :=
  snd (fold_left firstPass_line lines (0, ∅)).

(** Second pass: one line; the state is the address counter and the
    instruction store. *)
Definition secondPass_line (labels : gmap string Z)
  (st : Z * gmap Z Instruction) (line : string) : Z * gmap Z Instruction :=
  let '(address, cache) := st in
  if holdsInstruction line then
    match parseInstruction (instructionText line) labels with
    | Some instr => (address + 4, <[address := instr]> cache)
    | None => (address + 4, cache)
    end
  else (address, cache).

Definition secondPass (labels : gmap string Z) (lines : list string)
  (st : Z * gmap Z Instruction) : Z * gmap Z Instruction :=
  fold_left (secondPass_line labels) lines st.

(** The store [loadProgram] builds from a program text. *)
Definition loadedCache (programText : string) : gmap Z Instruction :=
  let lines := JS.split "010" programText in
  snd (secondPass (firstPass lines) lines (0, ∅)).

(** ** Engine state *)

Import JS.

(** The payload of the ID slot. *)
Record IDLatch : Type := mkIDLatch {
  id_instruction : Instruction;
  rsValue : value;
  rtValue : value
}.

(** The payload of the EX, MEM and WB slots. *)
Record Latch : Type := mkLatch {
  instruction : Instruction;
  result : value
}.

(** [pipelineStages]: [null] is [None]. *)
Record Stages : Type := mkStages {
  stIF : option Instruction;
  stID : option IDLatch;
  stEX : option Latch;
  stMEM : option Latch;
  stWB : option Latch
}.

Record MIPSPipeline : Type := mkMIPSPipeline {
  registradores : gmap key value;
  memoria : gmap key value;
  pipelineStages : Stages;
  PC : value;
  branchPredictor : gmap Z Z;
  stalled : bool;
  cycle : Z;
  instructionCache : gmap Z Instruction;
  isRunning : bool;
  runInterval : option Z;
  runSpeed : Z
}.

Definition emptyStages : Stages := mkStages None None None None None.

(** [new MIPSPipeline()]. *)
Definition constructor : MIPSPipeline :=
  mkMIPSPipeline (zeros 32) (zeros 1024) emptyStages (VNum 0) ∅ false 0 ∅
    false None 1000.

(** Field updates. *)
Definition set_IF (x : option Instruction) (p : Stages) : Stages :=
  mkStages x (stID p) (stEX p) (stMEM p) (stWB p).
Definition set_ID (x : option IDLatch) (p : Stages) : Stages :=
  mkStages (stIF p) x (stEX p) (stMEM p) (stWB p).
Definition set_EX (x : option Latch) (p : Stages) : Stages :=
  mkStages (stIF p) (stID p) x (stMEM p) (stWB p).
Definition set_MEM (x : option Latch) (p : Stages) : Stages :=
  mkStages (stIF p) (stID p) (stEX p) x (stWB p).
Definition set_WB (x : option Latch) (p : Stages) : Stages :=
  mkStages (stIF p) (stID p) (stEX p) (stMEM p) x.

Definition with_registradores (x : gmap key value) (s : MIPSPipeline) :=
  mkMIPSPipeline x (memoria s) (pipelineStages s) (PC s) (branchPredictor s)
    (stalled s) (cycle s) (instructionCache s) (isRunning s) (runInterval s)
    (runSpeed s).
Definition with_memoria (x : gmap key value) (s : MIPSPipeline) :=
  mkMIPSPipeline (registradores s) x (pipelineStages s) (PC s)
    (branchPredictor s) (stalled s) (cycle s) (instructionCache s)
    (isRunning s) (runInterval s) (runSpeed s).
Definition with_stages (x : Stages) (s : MIPSPipeline) :=
  mkMIPSPipeline (registradores s) (memoria s) x (PC s) (branchPredictor s)
    (stalled s) (cycle s) (instructionCache s) (isRunning s) (runInterval s)
    (runSpeed s).
Definition with_PC (x : value) (s : MIPSPipeline) :=
  mkMIPSPipeline (registradores s) (memoria s) (pipelineStages s) x
    (branchPredictor s) (stalled s) (cycle s) (instructionCache s)
    (isRunning s) (runInterval s) (runSpeed s).
Definition with_branchPredictor (x : gmap Z Z) (s : MIPSPipeline) :=
  mkMIPSPipeline (registradores s) (memoria s) (pipelineStages s) (PC s) x
    (stalled s) (cycle s) (instructionCache s) (isRunning s) (runInterval s)
    (runSpeed s).
Definition with_stalled (x : bool) (s : MIPSPipeline) :=
  mkMIPSPipeline (registradores s) (memoria s) (pipelineStages s) (PC s)
    (branchPredictor s) x (cycle s) (instructionCache s) (isRunning s)
    (runInterval s) (runSpeed s).
Definition with_cycle (x : Z) (s : MIPSPipeline) :=
  mkMIPSPipeline (registradores s) (memoria s) (pipelineStages s) (PC s)
    (branchPredictor s) (stalled s) x (instructionCache s) (isRunning s)
    (runInterval s) (runSpeed s).
Definition with_instructionCache (x : gmap Z Instruction) (s : MIPSPipeline) :=
  mkMIPSPipeline (registradores s) (memoria s) (pipelineStages s) (PC s)
    (branchPredictor s) (stalled s) (cycle s) x (isRunning s) (runInterval s)
    (runSpeed s).

(** Helpers over the slots of a state. *)
Definition IF_of (s : MIPSPipeline) := stIF (pipelineStages s).
Definition ID_of (s : MIPSPipeline) := stID (pipelineStages s).
Definition EX_of (s : MIPSPipeline) := stEX (pipelineStages s).
Definition MEM_of (s : MIPSPipeline) := stMEM (pipelineStages s).
Definition WB_of (s : MIPSPipeline) := stWB (pipelineStages s).

Definition on_stages (f : Stages -> Stages) (s : MIPSPipeline) : MIPSPipeline :=
  with_stages (f (pipelineStages s)) s.

(** [this.registradores[f]] for an instruction field [f]. *)
Definition reg (s : MIPSPipeline) (f : option Z) : value :=
  get (registradores s) (field_key f).

(** ** Forwarding unit *)

(** One forwarding source: the producer's instruction and result. *)
Definition forward (producer : Instruction) (res : value) (d : IDLatch) : IDLatch :=
  if decide (type producer = R_TYPE) then
    let d1 :=
      if field_eq (rs (id_instruction d)) (rd producer)
      then mkIDLatch (id_instruction d) res (rtValue d) else d in
    if field_eq (rt (id_instruction d1)) (rd producer)
    then mkIDLatch (id_instruction d1) (rsValue d1) res else d1
  else d.

Definition executeForwarding (s : MIPSPipeline) : MIPSPipeline :=
  match ID_of s, EX_of s with
  | Some d, Some ex =>
      (* Forwarding EX -> EX *)
      let d := forward (instruction ex) (result ex) d in
      (* Forwarding MEM -> EX *)
      let d :=
        match MEM_of s with
        | Some mem => forward (instruction mem) (result mem) d
        | None => d
        end in
      on_stages (set_ID (Some d)) s
  | _, _ => s
  end.

(** ** Hazard detector *)

Definition is_mem_op (i : Instruction) : bool :=
  String.eqb (opcode i) Opcode.LW || String.eqb (opcode i) Opcode.SW.

Definition detectStructuralHazard (s : MIPSPipeline) : bool :=
  let memory_conflict :=
    match MEM_of s, IF_of s with
    | Some mem, Some ifInstruction =>
        is_mem_op (instruction mem) && is_mem_op ifInstruction
    | _, _ => false
    end in
  if memory_conflict then true
  else
    match EX_of s, ID_of s with
    | Some ex, Some d =>
        String.eqb (opcode (instruction ex)) Opcode.MUL
        && String.eqb (opcode (id_instruction d)) Opcode.MUL
    | _, _ => false
    end.

Definition detectDataHazard (s : MIPSPipeline) : bool :=
  match ID_of s, EX_of s with
  | Some d, Some ex =>
      let idInstruction := id_instruction d in
      let exInstruction := instruction ex in
      if bool_decide (type exInstruction = R_TYPE)
         && (field_eq (rs idInstruction) (rd exInstruction)
             || field_eq (rt idInstruction) (rd exInstruction))
      then true
      else if String.eqb (opcode exInstruction) Opcode.LW
              && (field_eq (rs idInstruction) (rt exInstruction)
                  || field_eq (rt idInstruction) (rt exInstruction))
      then true
      else false
  | _, _ => false
  end.

Definition detectControlHazard (s : MIPSPipeline) : bool :=
  match ID_of s with
  | None => false
  | Some d =>
      String.eqb (opcode (id_instruction d)) Opcode.BEQ
      || String.eqb (opcode (id_instruction d)) Opcode.J
  end.

Definition detectHazards (s : MIPSPipeline) : bool :=
  detectStructuralHazard s || detectDataHazard s || detectControlHazard s.

(** ** Branch predictor *)

(** The lazy initialisation both methods start with. *)
Definition touch (address : Z) (table : gmap Z Z) : gmap Z Z :=
  match table !! address with
  | Some _ => table
  | None => <[address := BranchState.WEAKLY_NOT_TAKEN]> table
  end.

(** [predictBranch(address)] on the table: the answer and the new table. *)
Definition predict (table : gmap Z Z) (address : Z) : bool * gmap Z Z :=
  let table := touch address table in
  let state := default 0 (table !! address) in
  (BranchState.WEAKLY_TAKEN <=? state, table).

(** [updateBranchPredictor(address, taken)] on the table. *)
Definition update (table : gmap Z Z) (address : Z) (taken : bool) : gmap Z Z :=
  let table := touch address table in
  let state := default 0 (table !! address) in
  let state :=
    if taken then Z.min (state + 1) BranchState.STRONGLY_TAKEN
    else Z.max (state - 1) BranchState.STRONGLY_NOT_TAKEN in
  <[address := state]> table.

Definition predictBranch (s : MIPSPipeline) (address : Z) : bool * MIPSPipeline :=
  let '(answer, table) := predict (branchPredictor s) address in
  (answer, with_branchPredictor table s).

Definition updateBranchPredictor (s : MIPSPipeline) (address : Z) (taken : bool)
  : MIPSPipeline :=
  with_branchPredictor (update (branchPredictor s) address taken) s.

(** ** Pipeline stages *)

Definition fetchInstruction (s : MIPSPipeline) (address : value) : option Instruction :=
  match address with
  | VNum a => instructionCache s !! a
  | _ => None
  end.

Definition executeIF (s : MIPSPipeline) : MIPSPipeline :=
  if negb (stalled s) then
    match fetchInstruction s (PC s) with
    | Some instruction => on_stages (set_IF (Some instruction)) s
    | None => s
    end
  else s.

(** The control part of [executeID], for the instruction found in IF: the
    new PC and, where the source writes one, the NOP put in the IF slot. *)
Definition executeID_control (instruction : Instruction) (s : MIPSPipeline)
  : MIPSPipeline :=
  if String.eqb (opcode instruction) Opcode.BEQ
     || String.eqb (opcode instruction) Opcode.J
  then
    if String.eqb (opcode instruction) Opcode.BEQ then
      let rsValue := or_else (reg s (rs instruction)) (VNum 0) in
      let rtValue := or_else (reg s (rt instruction)) (VNum 0) in
      let actualTaken := strict_eq rsValue rtValue in
      if actualTaken then
        on_stages (set_IF (Some nop))
          (with_PC (mul (of_field (offset instruction)) (VNum 4)) s)
      else with_PC (add (PC s) (VNum 4)) s
    else if String.eqb (opcode instruction) Opcode.J then
      on_stages (set_IF (Some nop))
        (with_PC (mul (of_field (target instruction)) (VNum 4)) s)
    else s
  else with_PC (add (PC s) (VNum 4)) s.

(** The end of [executeID]: the instruction read from IF at the beginning
    goes to ID with its operands, and IF is emptied. *)
Definition executeID_latch (instruction : Instruction) (s : MIPSPipeline)
  : MIPSPipeline :=
  let d := mkIDLatch instruction
             (or_else (reg s (rs instruction)) (VNum 0))
             (or_else (reg s (rt instruction)) (VNum 0)) in
  on_stages (set_IF None) (on_stages (set_ID (Some d)) s).

Definition executeID (s : MIPSPipeline) : MIPSPipeline :=
  match IF_of s with
  | Some instruction =>
      executeID_latch instruction (executeID_control instruction s)
  | None => s
  end.

Definition executeEX (s : MIPSPipeline) : MIPSPipeline :=
  match ID_of s with
  | Some d =>
      let instruction := id_instruction d in
      let result :=
        if String.eqb (opcode instruction) Opcode.ADD then add (rsValue d) (rtValue d)
        else if String.eqb (opcode instruction) Opcode.SUB then sub (rsValue d) (rtValue d)
        else if String.eqb (opcode instruction) Opcode.MUL then mul (rsValue d) (rtValue d)
        else if String.eqb (opcode instruction) Opcode.BEQ
        then VBool (strict_eq (rsValue d) (rtValue d))
        else VUndef in
      on_stages (set_ID None) (on_stages (set_EX (Some (mkLatch instruction result))) s)
  | None => s
  end.

Definition executeMEM (s : MIPSPipeline) : MIPSPipeline :=
  match EX_of s with
  | Some ex =>
      let instruction := instruction ex in
      let address := add (reg s (rs instruction)) (of_field (offset instruction)) in
      let '(result, s) :=
        if String.eqb (opcode instruction) Opcode.LW then
          (get (memoria s) (div4_key address), s)
        else if String.eqb (opcode instruction) Opcode.SW then
          (result ex,
           with_memoria (<[div4_key address := reg s (rt instruction)]> (memoria s)) s)
        else (result ex, s) in
      on_stages (set_EX None) (on_stages (set_MEM (Some (mkLatch instruction result))) s)
  | None => s
  end.

Definition executeWB (s : MIPSPipeline) : MIPSPipeline :=
  match MEM_of s with
  | Some mem =>
      let instruction := instruction mem in
      let result := result mem in
      let s :=
        if decide (type instruction = R_TYPE) then
          with_registradores (<[field_key (rd instruction) := result]> (registradores s)) s
        else if String.eqb (opcode instruction) Opcode.LW then
          with_registradores (<[field_key (rt instruction) := result]> (registradores s)) s
        else s in
      on_stages (set_MEM None) (on_stages (set_WB (Some (mkLatch instruction result))) s)
  | None => s
  end.

Definition executeCycle (s : MIPSPipeline) : MIPSPipeline :=
  let s := executeForwarding s in
  let hasHazard := detectHazards s in
  let s := with_stalled hasHazard s in
  let s := executeWB s in
  let s := executeMEM s in
  let s := executeEX s in
  let s := executeID s in
  let s := executeIF s in
  with_cycle (cycle s + 1) s.

(** [n] cycles in a row. *)
Fixpoint run_cycles (n : nat) (s : MIPSPipeline) : MIPSPipeline :=
  match n with
  | O => s
  | S n => run_cycles n (executeCycle s)
  end.

(** ** Loading, stopping and resetting *)

Definition loadProgram (s : MIPSPipeline) (programText : string) : MIPSPipeline :=
  with_instructionCache (loadedCache programText) (with_PC (VNum 0) s).

Definition stop (s : MIPSPipeline) : MIPSPipeline :=
  if negb (isRunning s) then s
  else
    mkMIPSPipeline (registradores s) (memoria s) (pipelineStages s) (PC s)
      (branchPredictor s) (stalled s) (cycle s) (instructionCache s)
      false None (runSpeed s).

Definition reset (s : MIPSPipeline) : MIPSPipeline :=
  let s := stop s in
  mkMIPSPipeline (zeros 32) (zeros 1024) emptyStages (VNum 0) ∅ false 0 ∅
    (isRunning s) (runInterval s) (runSpeed s).

(** What the interface shows of an engine: registers, memory, the five
    slots, PC, predictor table, instruction store, cycle count and stall
    flag. *)
Definition observable (s : MIPSPipeline) :=
  (registradores s, memoria s, pipelineStages s, PC s, branchPredictor s,
   instructionCache s, cycle s, stalled s).

(** ** Definitions used by the statements *)

(** The three conditions in the words of the specification. *)
Definition holds_load_store (i : Instruction) : Prop :=
  opcode i = "lw" \/ opcode i = "sw".

Definition spec_structural (s : MIPSPipeline) : Prop :=
  (exists mem i, MEM_of s = Some mem /\ IF_of s = Some i /\
                 holds_load_store (instruction mem) /\ holds_load_store i)
  \/ (exists ex d, EX_of s = Some ex /\ ID_of s = Some d /\
                   opcode (instruction ex) = "mul" /\
                   opcode (id_instruction d) = "mul").

Definition spec_data (s : MIPSPipeline) : Prop :=
  exists ex d, EX_of s = Some ex /\ ID_of s = Some d /\
    ((type (instruction ex) = R_TYPE /\
      (rs (id_instruction d) = rd (instruction ex) \/
       rt (id_instruction d) = rd (instruction ex)))
     \/ (opcode (instruction ex) = "lw" /\
         (rs (id_instruction d) = rt (instruction ex) \/
          rt (id_instruction d) = rt (instruction ex)))).

Definition spec_control (s : MIPSPipeline) : Prop :=
  exists d, ID_of s = Some d /\
    (opcode (id_instruction d) = "beq" \/ opcode (id_instruction d) = "j").

(** An engine whose MEM slot holds a [sw]: the one-line program
    [sw $s1, 0($s2)] after four cycles. *)
Definition wb_example : MIPSPipeline :=
  run_cycles 4 (loadProgram constructor "sw $s1, 0($s2)").

(** [n] calls [updateBranchPredictor(a, true)] in a row. *)
Fixpoint taken_times (n : nat) (a : Z) (s : MIPSPipeline) : MIPSPipeline :=
  match n with
  | O => s
  | S n => taken_times n a (updateBranchPredictor s a true)
  end.

(** The calls an engine receives between its construction and any later
    moment.  The last two are the writes of the interface that installs
    the initial registers and memory of a program file:
    [pipeline.registradores[index] = v] and
    [pipeline.memoria[address / 4] = v]. *)
Inductive call : Type :=
| CallPredict (address : Z)
| CallUpdate (address : Z) (taken : bool)
| CallCycle
| CallLoad (programText : string)
| CallReset
| CallSetRegister (index : Z) (v : value)
| CallSetMemory (address : Z) (v : value).

Definition perform (s : MIPSPipeline) (c : call) : MIPSPipeline :=
  match c with
  | CallPredict a => snd (predictBranch s a)
  | CallUpdate a taken => updateBranchPredictor s a taken
  | CallCycle => executeCycle s
  | CallLoad programText => loadProgram s programText
  | CallReset => reset s
  | CallSetRegister index v =>
      with_registradores (<[KInt index := v]> (registradores s)) s
  | CallSetMemory address v =>
      with_memoria (<[div4_key (VNum address) := v]> (memoria s)) s
  end.

(** The engine after a sequence of calls on a fresh instance. *)
Definition after_calls (calls : list call) : MIPSPipeline :=
  fold_left perform calls constructor.

Definition two_bit (table : gmap Z Z) : Prop :=
  forall a v, table !! a = Some v -> 0 <= v <= 3.

(** The state on which decode and fetch run within a cycle. *)
Definition before_decode (s : MIPSPipeline) : MIPSPipeline :=
  let s := executeForwarding s in
  executeEX (executeMEM (executeWB (with_stalled (detectHazards s) s))).

(** An engine that ran the one-instruction program [nop] to its end. *)
Definition drained_example : MIPSPipeline :=
  run_cycles 3 (loadProgram constructor "nop").

(** The three-instruction program of the precedence scenario:
    the second instruction overwrites the register the first one wrote, and
    the third one reads it. *)
Definition precedence_program : string :=
  "add $s1, $s2, $s3" +:+ String "010"
  ("add $s1, $s4, $s5" +:+ String "010" "add $s6, $s1, $s1").

(** The engine with this program loaded and the registers $s2..$s5 set to
    1, 2, 10 and 20. *)
Definition precedence_start : MIPSPipeline :=
  after_calls
    [CallLoad precedence_program;
     CallSetRegister 5 (VNum 20); CallSetRegister 4 (VNum 10);
     CallSetRegister 3 (VNum 2); CallSetRegister 2 (VNum 1)].

(** After four cycles the third instruction is in ID, the second in EX with
    result 30 and the first in MEM with result 3. *)
Definition precedence_state : MIPSPipeline := run_cycles 4 precedence_start.

(** A [beq] in IF whose two registers differ: the one-line program
    [beq $s1, $s2, 5] after its fetch, with $s1 = 1 and $s2 = 2. *)
Definition beq_instruction : Instruction :=
  mkInstruction I_TYPE "beq" (Some 1) (Some 2) None (Some 5) None None.

Definition beq_not_taken_state : MIPSPipeline :=
  executeCycle
    (with_registradores
       (<[KInt 1 := VNum 1]> (<[KInt 2 := VNum 2]> (zeros 32)))
       (loadProgram constructor "beq $s1, $s2, 5")).

(** A [beq] in IF that compares an undefined register with a register
    holding 0: the first line loads $s1 from beyond the end of the memory
    array, and after five cycles the [beq] of the last line has been
    fetched. *)
Definition beq_undefined_program : string :=
  "lw $s1, 8000($s0)" +:+ String "010"
  ("nop" +:+ String "010"
   ("nop" +:+ String "010"
    ("nop" +:+ String "010" "beq $s1, $s0, 0"))).

Definition beq_undefined_state : MIPSPipeline :=
  run_cycles 5 (loadProgram constructor beq_undefined_program).

(** The comparison of the decode stage: both registers are read with
    [|| 0]. *)
Definition beq_taken (s : MIPSPipeline) (i : Instruction) : bool :=
  strict_eq (or_else (reg s (rs i)) (VNum 0)) (or_else (reg s (rt i)) (VNum 0)).

(** What the decode stage latches into ID for the instruction [i]. *)
Definition decoded (s : MIPSPipeline) (i : Instruction) : IDLatch :=
  mkIDLatch i (or_else (reg s (rs i)) (VNum 0)) (or_else (reg s (rt i)) (VNum 0)).

(** The scenario for a program text, on a fresh engine: the loader binds
    [loop] to the instruction index 0, and the first instruction the decode
    stage consumes is a [beq] whose decode sets PC to 0.  The decode stage
    of cycle [n + 1] runs on [before_decode (run_cycles n s)]. *)
Definition first_decode_redirects (programText : string) : Prop :=
  let s := loadProgram constructor programText in
  firstPass (JS.split "010" programText) !! "loop" = Some 0 /\
  exists (n : nat) (i : Instruction),
    (forall m : nat, (m < n)%nat ->
       IF_of (before_decode (run_cycles m s)) = None) /\
    IF_of (before_decode (run_cycles n s)) = Some i /\
    opcode i = "beq" /\
    PC (executeID (before_decode (run_cycles n s))) = VNum 0.

(** The number of lines of a list that take an address. *)
Definition instruction_lines (lines : list string) : Z :=
  Z.of_nat (length (filter (fun l => holdsInstruction l = true) lines)).

(** The address counter and the store after the second pass over [lines],
    from an empty store. *)
Definition loaded (labels : gmap string Z) (lines : list string)
  : Z * gmap Z Instruction :=
  secondPass labels lines (0, ∅).

(** A program whose first line names a register the loader does not know. *)
Definition hole_program : string :=
  "add $t1, $s0, $s0" +:+ String "010" "nop".

(** The shapes of the instruction objects the parser builds. *)
Definition arithmetic (op : string) : Prop :=
  toLowerCase op = "add" \/ toLowerCase op = "sub" \/ toLowerCase op = "mul".

Definition parsed_shape (i : Instruction) : Prop :=
  match type i with
  | R_TYPE =>
      arithmetic (opcode i) /\ is_Some (rs i) /\ is_Some (rt i) /\ is_Some (rd i)
  | I_TYPE =>
      (opcode i = "lw" \/ opcode i = "sw" \/ opcode i = "beq") /\
      is_Some (rs i) /\ is_Some (rt i) /\ is_Some (offset i)
  | J_TYPE => toLowerCase (opcode i) = "j" /\ is_Some (target i)
  | NOP => opcode i = "nop"
  end.

(** Slots whose instructions all have a parsed shape. *)
Definition stages_ok (p : Stages) : Prop :=
  (forall i, stIF p = Some i -> parsed_shape i) /\
  (forall d, stID p = Some d -> parsed_shape (id_instruction d)) /\
  (forall l, stEX p = Some l -> parsed_shape (instruction l)) /\
  (forall l, stMEM p = Some l -> parsed_shape (instruction l)) /\
  (forall l, stWB p = Some l -> parsed_shape (instruction l)).

(** An engine whose instructions, stored or in flight, all have a parsed
    shape and whose PC is a number. *)
Definition engine_ok (s : MIPSPipeline) : Prop :=
  (exists n : Z, PC s = VNum n) /\
  (forall a i, instructionCache s !! a = Some i -> parsed_shape i) /\
  stages_ok (pipelineStages s).

(** ** Definitions used by the further properties *)

From Stdlib Require DecimalPos.

(** The slot [slot] holds an R-type instruction that writes the register
    named by the field [f]: the condition under which the forwarding unit
    copies the slot's result. *)
Definition produces (slot : option Latch) (f : option Z) : bool :=
  match slot with
  | Some l =>
      bool_decide (type (instruction l) = R_TYPE)
      && field_eq f (rd (instruction l))
  | None => false
  end.

(** An engine in whose ID and EX slots two dependent additions sit, with a
    load in MEM: used to illustrate the forwarding unit. *)
Definition forwarding_example : MIPSPipeline :=
  run_cycles 4
    (after_calls
       [CallLoad ("lw $s9, 0($s0)" +:+ String "010"
                  ("add $s1, $s2, $s3" +:+ String "010" "add $s4, $s1, $s1"));
        CallSetRegister 2 (VNum 7); CallSetRegister 3 (VNum 5)]).

(** A load in EX followed by an instruction that reads the loaded
    register: the two-line program after three cycles. *)
Definition load_use_example : MIPSPipeline :=
  run_cycles 3
    (loadProgram constructor
       ("lw $s1, 0($s0)" +:+ String "010" "add $s2, $s1, $s1")).

(** The result the memory stage attaches to the payload [ex] of EX. *)
Definition mem_result (s : MIPSPipeline) (ex : Latch) : value :=
  if String.eqb (opcode (instruction ex)) Opcode.LW
  then get (memoria s)
         (div4_key (add (reg s (rs (instruction ex)))
                        (of_field (offset (instruction ex)))))
  else result ex.

(** The result the execute stage computes for the payload [d] of ID. *)
Definition ex_result (d : IDLatch) : value :=
  let instruction := id_instruction d in
  if String.eqb (opcode instruction) Opcode.ADD then add (rsValue d) (rtValue d)
  else if String.eqb (opcode instruction) Opcode.SUB then sub (rsValue d) (rtValue d)
  else if String.eqb (opcode instruction) Opcode.MUL then mul (rsValue d) (rtValue d)
  else if String.eqb (opcode instruction) Opcode.BEQ
  then VBool (strict_eq (rsValue d) (rtValue d))
  else VUndef.

(** An engine about to store: the one-line program [sw $s1, 8000($s0)]
    after three cycles, with $s1 = 42; the address is beyond the memory
    array. *)
Definition store_example : MIPSPipeline :=
  run_cycles 3
    (after_calls [CallLoad "sw $s1, 8000($s0)"; CallSetRegister 1 (VNum 42)]).

(** The same engine one cycle later with a load from the same address in
    EX (the payload is put there by hand). *)
Definition load_back_example : MIPSPipeline :=
  on_stages
    (set_EX (Some (mkLatch
       (mkInstruction I_TYPE "lw" (Some 0) (Some 2) None (Some 8000) None None)
       VUndef)))
    (executeMEM store_example).

(** An engine with an addition spelled in capitals in its ID slot. *)
Definition capitals_example : MIPSPipeline :=
  run_cycles 2
    (after_calls [CallLoad "ADD $s1, $s2, $s3";
                  CallSetRegister 2 (VNum 1); CallSetRegister 3 (VNum 2)]).

(** An engine with a jump spelled [J] in its IF slot. *)
Definition capital_jump_example : MIPSPipeline :=
  run_cycles 1 (loadProgram constructor "J 5").

(** The line [line] of [lines], with the lines before it, takes an address
    and parses to [i]. *)
Definition accepted_at (labels : gmap string Z) (lines : list string)
  (before : list string) (line : string) (i : Instruction) : Prop :=
  (exists after, lines = before ++ line :: after) /\
  holdsInstruction line = true /\
  parseInstruction (instructionText line) labels = Some i.

(** The label a line defines, if it defines one. *)
Definition label_of_line (line : string) : option string :=
  fst <$> labelMatch (JS.trim line).

(** A three-line program with a label in the middle, defined twice. *)
Definition label_program : string :=
  "x: nop" +:+ String "010"
  ("# only a comment" +:+ String "010"
   ("x: add $s1, $s2, $s3" +:+ String "010" "j x")).

(** [RegisterName], the table the display uses: index to name. *)
Definition RegisterName : gmap Z string :=
  list_to_map
    (map (fun i => (Z.of_nat i,
                    "$s" +:+ DecimalString.NilZero.string_of_uint (Nat.to_uint i)))
         (seq 0 32)).

(** The check behind the two register tables: each is the inverse of the
    other on the 32 indices, and [parseRegister] accepts a name as it is or
    followed by a comma. *)
Definition register_tables_agree (i : nat) : bool :=
  let name := "$s" +:+ DecimalString.NilZero.string_of_uint (Nat.to_uint i) in
  bool_decide (RegisterName !! Z.of_nat i = Some name)
  && bool_decide (RegisterAlias !! name = Some (Z.of_nat i))
  && bool_decide (parseRegister name = Some (Z.of_nat i))
  && bool_decide (parseRegister (name +:+ ",") = Some (Z.of_nat i)).

(** Every register field an instruction has is one of the 32 indices. *)
Definition fields_in_range (i : Instruction) : Prop :=
  forall r, rs i = Some r \/ rt i = Some r \/ rd i = Some r -> 0 <= r <= 31.

(** The instruction [i] is in one of the five slots. *)
Definition in_flight (s : MIPSPipeline) (i : Instruction) : Prop :=
  IF_of s = Some i \/
  id_instruction <$> ID_of s = Some i \/
  instruction <$> EX_of s = Some i \/
  instruction <$> MEM_of s = Some i \/
  instruction <$> WB_of s = Some i.

(** The register file has exactly the 32 entries it was created with. *)
Definition register_file_ok (s : MIPSPipeline) : Prop :=
  forall k, is_Some (registradores s !! k) <-> exists r, k = KInt r /\ 0 <= r <= 31.

(** Calls that set a register name one of the 32 registers, as the page
    does, which looks the name up in [RegisterAlias]. *)
Definition call_in_range (c : call) : Prop :=
  match c with
  | CallSetRegister index _ => 0 <= index <= 31
  | _ => True
  end.

Definition registers_inv (s : MIPSPipeline) : Prop :=
  engine_ok s /\
  (forall a i, instructionCache s !! a = Some i -> fields_in_range i) /\
  (forall i, in_flight s i -> fields_in_range i) /\
  register_file_ok s.


(** A short session: a program is loaded, a register set, two cycles run. *)
Definition short_session : list call :=
  [CallLoad "add $s1, $s2, $s3"; CallSetRegister 2 (VNum 7); CallCycle;
   CallCycle; CallPredict 8; CallSetMemory 12 (VNum 1); CallCycle].

(** [getBranchStateName(state)]: the [switch] compares with [===], and the
    states of the table are integers. *)
Definition getBranchStateName (state : Z) : string :=
  if state =? BranchState.STRONGLY_TAKEN then "Strongly Taken"
  else if state =? BranchState.WEAKLY_TAKEN then "Weakly Taken"
  else if state =? BranchState.WEAKLY_NOT_TAKEN then "Weakly Not Taken"
  else if state =? BranchState.STRONGLY_NOT_TAKEN then "Strongly Not Taken"
  else "Unknown".

(** The counter [updateBranchPredictor] starts from at an address. *)
Definition counter (s : MIPSPipeline) (a : Z) : Z :=
  default BranchState.WEAKLY_NOT_TAKEN (branchPredictor s !! a).

(** An addition about to retire while an instruction that reads its
    result is about to be decoded: two [nop] lines stand between them. *)
Definition write_then_read_example : MIPSPipeline :=
  run_cycles 4
    (after_calls
       [CallLoad ("add $s1, $s2, $s3" +:+ String "010"
                  ("nop" +:+ String "010"
                   ("nop" +:+ String "010" "add $s4, $s1, $s1")));
        CallSetRegister 2 (VNum 7); CallSetRegister 3 (VNum 5)]).


(** A jump over one instruction, about to be decoded: the program after
    its first cycle. *)
Definition jump_example : MIPSPipeline :=
  executeCycle
    (loadProgram constructor
       ("j end" +:+ String "010"
        ("add $s1, $s1, $s1" +:+ String "010" "end: sub $s2, $s2, $s2"))).




(** ** The text of an instruction *)













(** ** Timers *)

(** The intervals of the page: the period of each active handle, and the
    next handle [setInterval] will return. *)
Record Timers : Type := mkTimers {
  active : gmap Z Z;
  next_handle : Z
}.

Definition setInterval (period : Z) (t : Timers) : Z * Timers :=
  (next_handle t,
   mkTimers (<[next_handle t := period]> (active t)) (next_handle t + 1)).

Definition clearInterval (handle : option Z) (t : Timers) : Timers :=
  match handle with
  | Some h => mkTimers (delete h (active t)) (next_handle t)
  | None => t
  end.

(** [run()]. *)
Definition run (w : MIPSPipeline * Timers) : MIPSPipeline * Timers :=
  let '(s, t) := w in
  if isRunning s then w
  else
    let '(h, t) := setInterval (runSpeed s) t in
    (mkMIPSPipeline (registradores s) (memoria s) (pipelineStages s) (PC s)
       (branchPredictor s) (stalled s) (cycle s) (instructionCache s)
       true (Some h) (runSpeed s), t).

(** [stop()] with its [clearInterval]. *)
Definition stop_interval (w : MIPSPipeline * Timers) : MIPSPipeline * Timers :=
  let '(s, t) := w in
  (stop s, if isRunning s then clearInterval (runInterval s) t else t).

(** [setRunSpeed(speed)]. *)
Definition setRunSpeed (speed : Z) (w : MIPSPipeline * Timers)
  : MIPSPipeline * Timers :=
  let '(s, t) := w in
  let s := mkMIPSPipeline (registradores s) (memoria s) (pipelineStages s)
             (PC s) (branchPredictor s) (stalled s) (cycle s)
             (instructionCache s) (isRunning s) (runInterval s) speed in
  if isRunning s then run (stop_interval (s, t)) else (s, t).

(** What happens on the page: the methods, the callback of an interval,
    and the two buttons that combine methods. *)
Inductive event : Type :=
| Run
| Stop
| SetRunSpeed (speed : Z)
| Reset
| Load (programText : string)
| Tick (handle : Z)
| NextCycleButton
| RunButton.

Definition react (w : MIPSPipeline * Timers) (e : event)
  : MIPSPipeline * Timers :=
  match e with
  | Run => run w
  | Stop => stop_interval w
  | SetRunSpeed speed => setRunSpeed speed w
  | Reset => (reset (fst w), snd (stop_interval w))
  | Load programText => (loadProgram (fst w) programText, snd w)
  | Tick h =>
      match active (snd w) !! h with
      | Some _ => (executeCycle (fst w), snd w)
      | None => w
      end
  | NextCycleButton =>
      let w := stop_interval w in (executeCycle (fst w), snd w)
  | RunButton => if isRunning (fst w) then stop_interval w else run w
  end.

(** The page after a sequence of events, from a new engine and no timer. *)
Definition page (events : list event) : MIPSPipeline * Timers :=
  fold_left react events (constructor, mkTimers ∅ 1).

(** The run state and the timers agree. *)
Definition timers_ok (w : MIPSPipeline * Timers) : Prop :=
  (if isRunning (fst w)
   then exists h, runInterval (fst w) = Some h /\
                  active (snd w) = {[h := runSpeed (fst w)]}
   else runInterval (fst w) = None /\ active (snd w) = ∅) /\
  (forall h, is_Some (active (snd w) !! h) -> h < next_handle (snd w)).

(** * Properties *)

(** ** Basic facts on the state updates *)

Lemma eqb_true_iff (a b : string) : String.eqb a b = true <-> a = b.
Proof. apply String.eqb_eq. Qed.

Lemma field_eq_true (x y : option Z) : field_eq x y = true <-> x = y.
Proof. unfold field_eq. apply bool_decide_eq_true. Qed.

Ltac boolprop :=
  repeat first
    [ rewrite orb_true_iff | rewrite andb_true_iff | rewrite eqb_true_iff
    | rewrite field_eq_true | rewrite bool_decide_eq_true ].

(** ** Hazard detector *)

Lemma is_mem_op_true (i : Instruction) :
  is_mem_op i = true <-> holds_load_store i.
Proof. unfold is_mem_op, holds_load_store, Opcode.LW, Opcode.SW. boolprop. tauto. Qed.

Lemma detectStructuralHazard_spec (s : MIPSPipeline) :
  detectStructuralHazard s = true <-> spec_structural s.
Proof.
  unfold detectStructuralHazard, spec_structural, Opcode.MUL.
  set (memory_conflict := match MEM_of s, IF_of s with
                          | Some mem, Some i => _
                          | _, _ => false
                          end).
  set (multiplier_conflict := match EX_of s, ID_of s with
                              | Some ex, Some d => _
                              | _, _ => false
                              end).
  assert (H1 : memory_conflict = true <->
               exists mem i, MEM_of s = Some mem /\ IF_of s = Some i /\
                 holds_load_store (instruction mem) /\ holds_load_store i).
  { subst memory_conflict.
    destruct (MEM_of s) as [mem|], (IF_of s) as [i|];
      try (split; [discriminate | intros (? & ? & ? & ? & _); discriminate]).
    rewrite andb_true_iff, !is_mem_op_true. split.
    - intros [? ?]. by exists mem, i.
    - intros (mem' & i' & ? & ? & ? & ?). by simplify_eq. }
  assert (H2 : multiplier_conflict = true <->
               exists ex d, EX_of s = Some ex /\ ID_of s = Some d /\
                 opcode (instruction ex) = "mul" /\
                 opcode (id_instruction d) = "mul").
  { subst multiplier_conflict.
    destruct (EX_of s) as [ex|], (ID_of s) as [d|];
      try (split; [discriminate | intros (? & ? & ? & ? & _); discriminate]).
    rewrite andb_true_iff, !eqb_true_iff. split.
    - intros [? ?]. by exists ex, d.
    - intros (ex' & d' & ? & ? & ? & ?). by simplify_eq. }
  rewrite <- H1, <- H2. destruct memory_conflict; intuition congruence.
Qed.

Lemma detectDataHazard_spec (s : MIPSPipeline) :
  detectDataHazard s = true <-> spec_data s.
Proof.
  unfold detectDataHazard, spec_data, Opcode.LW.
  destruct (ID_of s) as [d|], (EX_of s) as [ex|];
    try (split; [discriminate | intros (? & ? & ? & ? & ?); discriminate]).
  set (c1 := bool_decide _ && _). set (c2 := String.eqb _ _ && _).
  assert (H1 : c1 = true <->
               type (instruction ex) = R_TYPE /\
               (rs (id_instruction d) = rd (instruction ex) \/
                rt (id_instruction d) = rd (instruction ex)))
    by (unfold c1; boolprop; tauto).
  assert (H2 : c2 = true <->
               opcode (instruction ex) = "lw" /\
               (rs (id_instruction d) = rt (instruction ex) \/
                rt (id_instruction d) = rt (instruction ex)))
    by (unfold c2; boolprop; tauto).
  split.
  - intros H. exists ex, d. split; [reflexivity|]. split; [reflexivity|].
    destruct c1; [left; tauto|]. destruct c2; [right; tauto|]. discriminate.
  - intros (ex' & d' & E1 & E2 & H). simplify_eq.
    destruct c1; [reflexivity|]. destruct c2; [reflexivity|].
    destruct H as [H|H]; [apply H1 in H | apply H2 in H]; discriminate.
Qed.

Lemma detectControlHazard_spec (s : MIPSPipeline) :
  detectControlHazard s = true <-> spec_control s.
Proof.
  unfold detectControlHazard, spec_control, Opcode.BEQ, Opcode.J.
  destruct (ID_of s) as [d|].
  - boolprop. split.
    + intros H. exists d. tauto.
    + intros (d' & E & H). simplify_eq. tauto.
  - split; [discriminate | intros (? & ? & ?); discriminate].
Qed.

(** C4. For every five-slot snapshot, [detectHazards] answers true exactly
    when one of the three conditions holds: structural (MEM and IF both
    hold a lw or sw, or EX and ID both hold a mul), data (EX holds an
    R-type whose rd, or a lw whose rt, is the rs or rt of the instruction
    in ID) or control (ID holds a beq or a j). *)
Theorem detectHazards_iff (s : MIPSPipeline) :
  detectHazards s = true <->
  spec_structural s \/ spec_data s \/ spec_control s.
Proof.
  unfold detectHazards.
  rewrite !orb_true_iff, detectStructuralHazard_spec,
    detectDataHazard_spec, detectControlHazard_spec.
  tauto.
Qed.

(** ** Write-back *)

(** What [parseRTypeInstruction] builds: an R-type object whose opcode is
    the first part as written (in any letter case). *)
Lemma parseRTypeInstruction_fields parts i :
  parseRTypeInstruction parts = Some i ->
  type i = R_TYPE /\ opcode i = hd EmptyString parts /\
  is_Some (rs i) /\ is_Some (rt i) /\ is_Some (rd i).
Proof.
  unfold parseRTypeInstruction.
  destruct parts as [|p0 [|p1 [|p2 [|p3 [|]]]]]; try discriminate.
  destruct (parseRegister p1), (parseRegister p2), (parseRegister p3);
    try discriminate.
  intros [= <-]. cbn. eauto 10.
Qed.

(** A parsed [lw] is never of type R, so that the first two cases of
    write-back exclude each other on a loaded program. *)
Lemma parsed_shape_lw i : parsed_shape i -> opcode i = "lw" -> type i <> R_TYPE.
Proof.
  unfold parsed_shape, arithmetic. intros H Hop HR. rewrite HR, Hop in H.
  destruct H as [[H|[H|H]] _]; discriminate H.
Qed.

Lemma parsed_shape_beq i :
  parsed_shape i -> opcode i = "beq" -> is_Some (offset i).
Proof.
  unfold parsed_shape, arithmetic. intros H Hop. rewrite Hop in H.
  destruct (type i).
  - destruct H as [[H|[H|H]] _]; discriminate H.
  - tauto.
  - destruct H as [H _]. discriminate H.
  - discriminate H.
Qed.

Lemma parsed_shape_j i :
  parsed_shape i -> opcode i = "j" -> is_Some (target i).
Proof.
  unfold parsed_shape, arithmetic. intros H Hop. rewrite Hop in H.
  destruct (type i).
  - destruct H as [[H|[H|H]] _]; discriminate H.
  - destruct H as [[H|[H|H]] _]; discriminate H.
  - tauto.
  - discriminate H.
Qed.

Lemma parsed_shape_not_R i :
  parsed_shape i ->
  opcode i = "sw" \/ opcode i = "beq" \/ opcode i = "j" \/ opcode i = "nop" ->
  type i <> R_TYPE.
Proof.
  unfold parsed_shape, arithmetic. intros H Hop HR. rewrite HR in H.
  destruct H as [H _].
  destruct Hop as [Hop|[Hop|[Hop|Hop]]]; rewrite Hop in H;
    destruct H as [H|[H|H]]; discriminate H.
Qed.

(** C6. When the MEM slot is occupied, [executeWB] writes the slot's result
    to register rd for an R-type instruction, to register rt for a lw, and
    leaves the whole register file as it is for every other opcode (sw,
    beq, j, nop); in all cases the payload moves to WB and MEM is emptied.
    The R-type case comes first in the code; on an instruction built by the
    parser a lw is never of type R. *)
Theorem executeWB_effect (s : MIPSPipeline) (mem : Latch) :
  MEM_of s = Some mem ->
  let i := instruction mem in
  let s' := executeWB s in
  (type i = R_TYPE ->
   registradores s' = <[field_key (rd i) := result mem]> (registradores s)) /\
  (type i <> R_TYPE -> opcode i = "lw" ->
   registradores s' = <[field_key (rt i) := result mem]> (registradores s)) /\
  (type i <> R_TYPE -> opcode i <> "lw" ->
   registradores s' = registradores s) /\
  (parsed_shape i ->
   (opcode i = "lw" ->
    registradores s' = <[field_key (rt i) := result mem]> (registradores s)) /\
   (opcode i = "sw" \/ opcode i = "beq" \/ opcode i = "j" \/ opcode i = "nop" ->
    registradores s' = registradores s)) /\
  WB_of s' = Some mem /\ MEM_of s' = None.
Proof.
  intros Hmem i s'.
  assert (Hlw : type i <> R_TYPE -> opcode i = "lw" ->
                registradores s' =
                <[field_key (rt i) := result mem]> (registradores s)).
  { intros HR Hop. subst i s'. unfold executeWB. rewrite Hmem. cbn zeta.
    destruct (decide _); [contradiction|].
    unfold Opcode.LW. by rewrite Hop. }
  assert (Hother : type i <> R_TYPE -> opcode i <> "lw" ->
                   registradores s' = registradores s).
  { intros HR Hop. subst i s'. unfold executeWB. rewrite Hmem. cbn zeta.
    destruct (decide _); [contradiction|].
    unfold Opcode.LW. apply String.eqb_neq in Hop. by rewrite Hop. }
  split; [|split; [exact Hlw|split; [exact Hother|split; [|split]]]].
  - intros HR. subst i s'. unfold executeWB. rewrite Hmem. cbn zeta.
    by destruct (decide _).
  - intros Hshape. split.
    + intros Hop. apply Hlw; [|exact Hop]. by apply parsed_shape_lw.
    + intros Hop. apply Hother.
      * by apply parsed_shape_not_R.
      * destruct Hop as [Hop|[Hop|[Hop|Hop]]]; rewrite Hop; discriminate.
  - subst i s'. unfold executeWB. rewrite Hmem. cbn zeta.
    destruct mem. destruct (decide _); [done|]. by destruct (String.eqb _ _).
  - subst i s'. unfold executeWB. rewrite Hmem. cbn zeta.
    destruct (decide _); [done|]. by destruct (String.eqb _ _).
Qed.

Lemma executeWB_effect_witness :
  registradores (executeWB wb_example) = registradores wb_example /\
  MEM_of (executeWB wb_example) = None.
Proof.
  assert (Hmem : MEM_of wb_example =
                 Some (mkLatch
                         (mkInstruction I_TYPE "sw" (Some 2) (Some 1) None
                            (Some 0) None None)
                         VUndef))
    by (vm_compute; reflexivity).
  destruct (executeWB_effect wb_example _ Hmem) as (_ & _ & H & _ & _ & H').
  split; [apply H; discriminate | exact H'].
Defined.

(** ** Branch predictor *)

Lemma touch_lookup (table : gmap Z Z) (a : Z) :
  touch a table !! a = Some (default BranchState.WEAKLY_NOT_TAKEN (table !! a)).
Proof.
  unfold touch. destruct (table !! a) eqn:E; cbn.
  - exact E.
  - apply lookup_insert_eq.
Qed.

Lemma touch_lookup_ne (table : gmap Z Z) (a k : Z) :
  a <> k -> touch a table !! k = table !! k.
Proof.
  intros Hne. unfold touch. destruct (table !! a); [reflexivity|].
  by apply lookup_insert_ne.
Qed.

Lemma update_lookup (table : gmap Z Z) (a : Z) (taken : bool) :
  update table a taken !! a =
  Some (let state := default 1 (table !! a) in
        if taken then Z.min (state + 1) 3 else Z.max (state - 1) 0).
Proof.
  unfold update. rewrite lookup_insert_eq, touch_lookup. reflexivity.
Qed.

Lemma update_lookup_ne (table : gmap Z Z) (a k : Z) (taken : bool) :
  a <> k -> update table a taken !! k = table !! k.
Proof.
  intros Hne. unfold update. rewrite lookup_insert_ne by done.
  by apply touch_lookup_ne.
Qed.

Lemma predict_answer (table : gmap Z Z) (a : Z) :
  fst (predict table a) = (2 <=? default 1 (table !! a)).
Proof. unfold predict. cbn [fst]. rewrite touch_lookup. reflexivity. Qed.

Lemma predict_table (table : gmap Z Z) (a : Z) :
  snd (predict table a) = touch a table.
Proof. reflexivity. Qed.

Lemma predictBranch_fst (s : MIPSPipeline) (a : Z) :
  fst (predictBranch s a) = fst (predict (branchPredictor s) a).
Proof. reflexivity. Qed.

Lemma predictBranch_snd (s : MIPSPipeline) (a : Z) :
  branchPredictor (snd (predictBranch s a)) = touch a (branchPredictor s).
Proof. reflexivity. Qed.

Lemma taken_times_saturated (n : nat) (a : Z) (s : MIPSPipeline) :
  branchPredictor s !! a = Some 3 ->
  branchPredictor (taken_times n a s) !! a = Some 3.
Proof.
  revert s. induction n as [|n IH]; intros s H; [exact H|].
  cbn [taken_times]. apply IH.
  unfold updateBranchPredictor. cbn. rewrite update_lookup, H. reflexivity.
Qed.

Lemma taken_times_add (n m : nat) (a : Z) (s : MIPSPipeline) :
  taken_times (n + m) a s = taken_times m a (taken_times n a s).
Proof.
  revert s. induction n as [|n IH]; intros s; [reflexivity|].
  cbn [Nat.add taken_times]. apply IH.
Qed.

(** C3. For an address the predictor has not seen, [predictBranch] answers
    false; after three [updateBranchPredictor(a, true)] from the unseen
    state it answers true, the counter is 3, and any number of further
    updates with true keeps the counter at 3 and the answer true. *)
Theorem predictor_unseen_then_saturates (s : MIPSPipeline) (a : Z) :
  branchPredictor s !! a = None ->
  fst (predictBranch s a) = false /\
  fst (predictBranch (taken_times 3 a s) a) = true /\
  forall n : nat,
    branchPredictor (taken_times (3 + n) a s) !! a = Some 3 /\
    fst (predictBranch (taken_times (3 + n) a s) a) = true.
Proof.
  intros Hnew.
  assert (H3 : branchPredictor (taken_times 3 a s) !! a = Some 3).
  { cbn [taken_times]. unfold updateBranchPredictor. cbn.
    rewrite !update_lookup, Hnew. reflexivity. }
  assert (Hn : forall n : nat,
             branchPredictor (taken_times (3 + n) a s) !! a = Some 3).
  { intros n. rewrite taken_times_add. by apply taken_times_saturated. }
  split; [|split].
  - rewrite predictBranch_fst, predict_answer, Hnew. reflexivity.
  - rewrite predictBranch_fst, predict_answer, H3. reflexivity.
  - intros n. split; [apply Hn|].
    rewrite predictBranch_fst, predict_answer, Hn. reflexivity.
Qed.

Lemma predictor_unseen_then_saturates_witness :
  fst (predictBranch constructor 8) = false /\
  fst (predictBranch (taken_times 3 8 constructor) 8) = true.
Proof.
  pose proof (predictor_unseen_then_saturates constructor 8 eq_refl)
    as (H1 & H2 & _).
  exact (conj H1 H2).
Defined.

Lemma two_bit_touch (table : gmap Z Z) (a : Z) :
  two_bit table -> two_bit (touch a table).
Proof.
  intros H k v. destruct (decide (a = k)) as [->|Hne].
  - rewrite touch_lookup. destruct (table !! k) eqn:E; cbn.
    + intros [= <-]. eauto.
    + intros [= <-]. unfold BranchState.WEAKLY_NOT_TAKEN. lia.
  - rewrite touch_lookup_ne by done. apply H.
Qed.

Lemma two_bit_update (table : gmap Z Z) (a : Z) (taken : bool) :
  two_bit table -> two_bit (update table a taken).
Proof.
  intros H k v. destruct (decide (a = k)) as [->|Hne].
  - rewrite update_lookup. intros [= <-]. cbn zeta.
    destruct (table !! k) as [w|] eqn:E; cbn [from_option id].
    + apply H in E. destruct taken; lia.
    + destruct taken; lia.
  - rewrite update_lookup_ne by done. apply H.
Qed.

(** The stages never touch the predictor table in this variant. *)
Lemma on_stages_branchPredictor f s :
  branchPredictor (on_stages f s) = branchPredictor s.
Proof. reflexivity. Qed.

Lemma executeForwarding_branchPredictor s :
  branchPredictor (executeForwarding s) = branchPredictor s.
Proof. unfold executeForwarding. by destruct (ID_of s), (EX_of s). Qed.

Lemma executeWB_branchPredictor s :
  branchPredictor (executeWB s) = branchPredictor s.
Proof.
  unfold executeWB. destruct (MEM_of s) as [m|]; [|done].
  cbn zeta. destruct (decide _); [done|]. by destruct (String.eqb _ _).
Qed.

Lemma executeMEM_branchPredictor s :
  branchPredictor (executeMEM s) = branchPredictor s.
Proof.
  unfold executeMEM. destruct (EX_of s) as [e|]; [|done].
  cbn zeta. by repeat destruct (String.eqb _ _).
Qed.

Lemma executeEX_branchPredictor s :
  branchPredictor (executeEX s) = branchPredictor s.
Proof. unfold executeEX. by destruct (ID_of s). Qed.

Lemma executeID_branchPredictor s :
  branchPredictor (executeID s) = branchPredictor s.
Proof.
  unfold executeID. destruct (IF_of s) as [i|]; [|done].
  unfold executeID_latch, executeID_control.
  repeat (destruct (String.eqb _ _); cbn [orb]); try done.
  by destruct (strict_eq _ _).
Qed.

Lemma executeIF_branchPredictor s :
  branchPredictor (executeIF s) = branchPredictor s.
Proof.
  unfold executeIF. destruct (negb _); [|done].
  by destruct (fetchInstruction _ _).
Qed.

Lemma executeCycle_branchPredictor s :
  branchPredictor (executeCycle s) = branchPredictor s.
Proof.
  unfold executeCycle. cbn zeta. unfold with_cycle. cbn [branchPredictor].
  rewrite executeIF_branchPredictor, executeID_branchPredictor,
    executeEX_branchPredictor, executeMEM_branchPredictor,
    executeWB_branchPredictor.
  cbn [with_stalled branchPredictor]. apply executeForwarding_branchPredictor.
Qed.

Lemma perform_two_bit (s : MIPSPipeline) (c : call) :
  two_bit (branchPredictor s) -> two_bit (branchPredictor (perform s c)).
Proof.
  intros H. destruct c as [a|a taken| |text| |index v|address v]; cbn [perform].
  - rewrite predictBranch_snd. by apply two_bit_touch.
  - by apply two_bit_update.
  - by rewrite executeCycle_branchPredictor.
  - exact H.
  - intros a v. cbn. by rewrite lookup_empty.
  - exact H.
  - exact H.
Qed.

Lemma fold_perform_two_bit (calls : list call) (s : MIPSPipeline) :
  two_bit (branchPredictor s) ->
  two_bit (branchPredictor (fold_left perform calls s)).
Proof.
  revert s. induction calls as [|c calls IH]; intros s H; [exact H|].
  cbn [fold_left]. apply IH. by apply perform_two_bit.
Qed.

Lemma perform_keeps_entry (s : MIPSPipeline) (c : call) (k : Z) :
  c <> CallReset ->
  is_Some (branchPredictor s !! k) ->
  is_Some (branchPredictor (perform s c) !! k).
Proof.
  intros Hc H. destruct c as [a|a taken| |text| |index v|address v]; cbn [perform].
  - rewrite predictBranch_snd. destruct (decide (a = k)) as [->|Hne].
    + rewrite touch_lookup. eauto.
    + by rewrite touch_lookup_ne.
  - unfold updateBranchPredictor. cbn [with_branchPredictor branchPredictor].
    destruct (decide (a = k)) as [->|Hne].
    + rewrite update_lookup. eauto.
    + by rewrite update_lookup_ne.
  - by rewrite executeCycle_branchPredictor.
  - exact H.
  - contradiction.
  - exact H.
  - exact H.
Qed.

(** C8. In every state reached from a fresh engine by any sequence of
    calls, every entry of the predictor table is 0, 1, 2 or 3; an entry is
    created at 1 on the first reference to its address and no call other
    than [reset] removes an entry; [reset] empties the table. *)
Theorem predictor_table_invariant :
  (forall (calls : list call) (a v : Z),
     branchPredictor (after_calls calls) !! a = Some v -> 0 <= v <= 3) /\
  (forall (s : MIPSPipeline) (c : call) (k : Z),
     c <> CallReset ->
     is_Some (branchPredictor s !! k) ->
     is_Some (branchPredictor (perform s c) !! k)) /\
  (forall (s : MIPSPipeline) (a : Z),
     branchPredictor s !! a = None ->
     branchPredictor (snd (predictBranch s a)) !! a = Some 1 /\
     forall taken,
       updateBranchPredictor s a taken =
       updateBranchPredictor (snd (predictBranch s a)) a taken) /\
  (forall s : MIPSPipeline, branchPredictor (reset s) = ∅).
Proof.
  split; [|split; [|split]].
  - intros calls. apply fold_perform_two_bit.
    intros a v. cbn. by rewrite lookup_empty.
  - apply perform_keeps_entry.
  - intros s a Hnew. split.
    + rewrite predictBranch_snd, touch_lookup, Hnew. reflexivity.
    + intros taken.
      transitivity
        (with_branchPredictor (update (touch a (branchPredictor s)) a taken) s);
        [|reflexivity].
      unfold updateBranchPredictor. f_equal. unfold update.
      assert (E : touch a (touch a (branchPredictor s)) = touch a (branchPredictor s)).
      { unfold touch at 1. by rewrite touch_lookup. }
      by rewrite E.
  - reflexivity.
Qed.

Lemma predictor_table_invariant_witness :
  branchPredictor
    (after_calls [CallUpdate 8 true; CallPredict 8; CallUpdate 8 true]) !! 8
  = Some 3 /\
  0 <= 3 <= 3 /\
  is_Some (branchPredictor
             (perform (after_calls [CallUpdate 8 true]) CallCycle) !! 8).
Proof.
  assert (Hentry : branchPredictor
                     (after_calls
                        [CallUpdate 8 true; CallPredict 8; CallUpdate 8 true])
                     !! 8 = Some 3) by (vm_compute; reflexivity).
  destruct predictor_table_invariant as (H1 & H2 & _).
  split; [exact Hentry|]. split.
  - exact (H1 _ 8 3 Hentry).
  - apply H2; [discriminate|]. exists 2. vm_compute. reflexivity.
Defined.

(** ** Reset *)

Lemma stop_idle (s : MIPSPipeline) : isRunning s = false -> stop s = s.
Proof. intros H. unfold stop. by rewrite H. Qed.

Lemma stop_isRunning (s : MIPSPipeline) : isRunning (stop s) = false.
Proof. unfold stop. by destruct (isRunning s) eqn:E. Qed.

(** C9. Calling [reset] twice gives the same engine as calling it once,
    and what is observable of a reset engine (registers, memory, the five
    slots, PC, predictor table, instruction store, cycle count, stall
    flag) is what is observable of a freshly constructed one. *)
Theorem reset_idempotent (s : MIPSPipeline) :
  reset (reset s) = reset s /\
  observable (reset s) = observable constructor.
Proof.
  split; [|reflexivity].
  assert (H : isRunning (reset s) = false) by apply stop_isRunning.
  unfold reset at 1. rewrite (stop_idle _ H). reflexivity.
Qed.

(** ** Program counter *)

(** What the stages other than decode leave alone: PC, the instruction
    store and the IF slot (fetch apart, which fills IF). *)
Lemma executeForwarding_frame s :
  PC (executeForwarding s) = PC s /\
  instructionCache (executeForwarding s) = instructionCache s /\
  IF_of (executeForwarding s) = IF_of s.
Proof. unfold executeForwarding. by destruct (ID_of s), (EX_of s). Qed.

Lemma executeWB_frame s :
  PC (executeWB s) = PC s /\
  instructionCache (executeWB s) = instructionCache s /\
  IF_of (executeWB s) = IF_of s /\
  stalled (executeWB s) = stalled s.
Proof.
  unfold executeWB. destruct (MEM_of s) as [m|]; [|done].
  cbn zeta. destruct (decide _); [done|]. by destruct (String.eqb _ _).
Qed.

Lemma executeMEM_frame s :
  PC (executeMEM s) = PC s /\
  instructionCache (executeMEM s) = instructionCache s /\
  IF_of (executeMEM s) = IF_of s /\
  stalled (executeMEM s) = stalled s.
Proof.
  unfold executeMEM. destruct (EX_of s) as [e|]; [|done].
  cbn zeta. by repeat destruct (String.eqb _ _).
Qed.

Lemma executeEX_frame s :
  PC (executeEX s) = PC s /\
  instructionCache (executeEX s) = instructionCache s /\
  IF_of (executeEX s) = IF_of s /\
  stalled (executeEX s) = stalled s.
Proof. unfold executeEX. by destruct (ID_of s). Qed.

Lemma executeID_idle s : IF_of s = None -> executeID s = s.
Proof. intros H. unfold executeID. by rewrite H. Qed.

Lemma executeIF_PC s : PC (executeIF s) = PC s.
Proof.
  unfold executeIF. destruct (negb _); [|done].
  by destruct (fetchInstruction _ _).
Qed.

Lemma executeIF_instructionCache s :
  instructionCache (executeIF s) = instructionCache s.
Proof.
  unfold executeIF. destruct (negb _); [|done].
  by destruct (fetchInstruction _ _).
Qed.

Lemma executeIF_nothing_to_fetch s :
  IF_of s = None -> fetchInstruction s (PC s) = None ->
  IF_of (executeIF s) = None.
Proof.
  intros H1 H2. unfold executeIF. destruct (negb _); [|done]. by rewrite H2.
Qed.

Lemma executeCycle_unfold s :
  executeCycle s =
  let s' := executeIF (executeID (before_decode s)) in
  with_cycle (cycle s' + 1) s'.
Proof. reflexivity. Qed.

Lemma before_decode_frame s :
  PC (before_decode s) = PC s /\
  instructionCache (before_decode s) = instructionCache s /\
  IF_of (before_decode s) = IF_of s.
Proof.
  unfold before_decode. cbn zeta.
  destruct (executeForwarding_frame s) as (F1 & F2 & F3).
  set (s1 := with_stalled _ _).
  assert (H1 : PC s1 = PC s /\ instructionCache s1 = instructionCache s /\
               IF_of s1 = IF_of s) by (subst s1; cbn; auto).
  destruct H1 as (A1 & A2 & A3).
  destruct (executeWB_frame s1) as (B1 & B2 & B3 & _).
  destruct (executeMEM_frame (executeWB s1)) as (C1 & C2 & C3 & _).
  destruct (executeEX_frame (executeMEM (executeWB s1))) as (D1 & D2 & D3 & _).
  repeat split; congruence.
Qed.

Lemma executeCycle_idle s :
  IF_of s = None ->
  PC (executeCycle s) = PC s /\
  instructionCache (executeCycle s) = instructionCache s /\
  (fetchInstruction s (PC s) = None -> IF_of (executeCycle s) = None).
Proof.
  intros Hif. rewrite executeCycle_unfold. cbn zeta.
  destruct (before_decode_frame s) as (F1 & F2 & F3).
  rewrite executeID_idle by congruence.
  unfold with_cycle. cbn [PC instructionCache].
  rewrite executeIF_PC, executeIF_instructionCache.
  repeat split; try assumption.
  intros Hfetch.
  change (IF_of (executeIF (before_decode s)) = None).
  apply executeIF_nothing_to_fetch; [congruence|].
  unfold fetchInstruction in *. by rewrite F1, F2.
Qed.

Lemma run_cycles_idle (n : nat) (s : MIPSPipeline) :
  IF_of s = None -> fetchInstruction s (PC s) = None ->
  PC (run_cycles n s) = PC s /\ IF_of (run_cycles n s) = None /\
  instructionCache (run_cycles n s) = instructionCache s.
Proof.
  revert s. induction n as [|n IH]; intros s Hif Hfetch; [done|].
  cbn [run_cycles].
  destruct (executeCycle_idle s Hif) as (E1 & E2 & E3).
  specialize (E3 Hfetch).
  assert (Hfetch' : fetchInstruction (executeCycle s) (PC (executeCycle s)) = None).
  { unfold fetchInstruction in *. by rewrite E1, E2. }
  destruct (IH (executeCycle s) E3 Hfetch') as (I1 & I2 & I3).
  repeat split; congruence.
Qed.

(** C10. When the IF slot is empty at the beginning of a step,
    [executeCycle] leaves PC as it was; the fetch stage never changes PC;
    and once the IF slot is empty with no instruction stored at PC, PC
    keeps its value for any number of cycles. *)
Theorem executeCycle_PC_unchanged (s : MIPSPipeline) :
  IF_of s = None ->
  PC (executeCycle s) = PC s /\
  (forall s0 : MIPSPipeline, PC (executeIF s0) = PC s0) /\
  (fetchInstruction s (PC s) = None ->
   forall n : nat, PC (run_cycles n s) = PC s /\ IF_of (run_cycles n s) = None).
Proof.
  intros Hif. split; [by apply executeCycle_idle|].
  split; [apply executeIF_PC|].
  intros Hfetch n.
  destruct (run_cycles_idle n s Hif Hfetch) as (H1 & H2 & _). by split.
Qed.

Lemma executeCycle_PC_unchanged_witness :
  PC (executeCycle drained_example) = PC drained_example /\
  PC (run_cycles 5 drained_example) = VNum 4.
Proof.
  assert (Hif : IF_of drained_example = None) by (vm_compute; reflexivity).
  assert (Hfetch : fetchInstruction drained_example (PC drained_example) = None)
    by (vm_compute; reflexivity).
  destruct (executeCycle_PC_unchanged drained_example Hif) as (H1 & _ & H2).
  split; [exact H1|].
  rewrite (proj1 (H2 Hfetch 5%nat)). vm_compute. reflexivity.
Defined.

(** ** Forwarding unit *)

Lemma forward_rs_hit producer res d :
  type producer = R_TYPE -> rs (id_instruction d) = rd producer ->
  rsValue (forward producer res d) = res /\
  id_instruction (forward producer res d) = id_instruction d.
Proof.
  intros HR Hrs. unfold forward.
  destruct (decide (type producer = R_TYPE)); [|contradiction].
  assert (E : field_eq (rs (id_instruction d)) (rd producer) = true)
    by by apply field_eq_true.
  rewrite E. cbn [id_instruction rsValue].
  by destruct (field_eq (rt (id_instruction d)) (rd producer)).
Qed.

Lemma forward_rt_hit producer res d :
  type producer = R_TYPE -> rt (id_instruction d) = rd producer ->
  rtValue (forward producer res d) = res /\
  id_instruction (forward producer res d) = id_instruction d.
Proof.
  intros HR Hrt. unfold forward.
  destruct (decide (type producer = R_TYPE)); [|contradiction].
  destruct (field_eq (rs (id_instruction d)) (rd producer));
    cbn [id_instruction];
    (assert (E : field_eq (rt (id_instruction d)) (rd producer) = true)
       by by apply field_eq_true); by rewrite E.
Qed.

(** With an R-type instruction in EX and one in MEM that write the same
    register, the operands of the instruction in ID that read this register
    end up with the result held in MEM: the MEM block runs last and
    overwrites what the EX block stored. *)
Lemma executeForwarding_MEM_overrides_EX s d ex mem :
  ID_of s = Some d -> EX_of s = Some ex -> MEM_of s = Some mem ->
  type (instruction ex) = R_TYPE -> type (instruction mem) = R_TYPE ->
  rd (instruction mem) = rd (instruction ex) ->
  exists d', ID_of (executeForwarding s) = Some d' /\
    (rs (id_instruction d) = rd (instruction ex) -> rsValue d' = result mem) /\
    (rt (id_instruction d) = rd (instruction ex) -> rtValue d' = result mem).
Proof.
  intros Hid Hex Hmem HRex HRmem Hrd.
  unfold executeForwarding. rewrite Hid, Hex, Hmem.
  eexists. split; [reflexivity|].
  set (d1 := forward (instruction ex) (result ex) d).
  assert (Hi : id_instruction d1 = id_instruction d).
  { subst d1. unfold forward. destruct (decide _); [|done].
    destruct (field_eq (rs _) _); cbn [id_instruction];
      by destruct (field_eq (rt _) _). }
  split; intros H.
  - apply forward_rs_hit; [done|]. congruence.
  - apply forward_rt_hit; [done|]. congruence.
Qed.

(** C1, as the code behaves. In the state reached after four cycles of the
    precedence program, EX holds [add $s1, $s4, $s5] with result 30, MEM
    holds [add $s1, $s2, $s3] with result 3 and ID holds
    [add $s6, $s1, $s1]; [executeForwarding] leaves both operands of ID at
    3, the result held in MEM, and the program ends with $s6 = 6 where the
    sequential execution gives 60. *)
Theorem executeForwarding_precedence_example :
  (type ∘ instruction <$> EX_of precedence_state) = Some R_TYPE /\
  (type ∘ instruction <$> MEM_of precedence_state) = Some R_TYPE /\
  (result <$> EX_of precedence_state) = Some (VNum 30) /\
  (result <$> MEM_of precedence_state) = Some (VNum 3) /\
  (rd ∘ instruction <$> EX_of precedence_state) = Some (Some 1) /\
  (rd ∘ instruction <$> MEM_of precedence_state) = Some (Some 1) /\
  (rs ∘ id_instruction <$> ID_of precedence_state) = Some (Some 1) /\
  (rsValue <$> ID_of (executeForwarding precedence_state)) = Some (VNum 3) /\
  (rtValue <$> ID_of (executeForwarding precedence_state)) = Some (VNum 3) /\
  reg (run_cycles 8 precedence_start) (Some 1) = VNum 30 /\
  reg (run_cycles 8 precedence_start) (Some 6) = VNum 6.
Proof. vm_compute. repeat split. Qed.

(** ** Decode stage: control flow *)

(** C2 fails as stated: for a [beq] that is not taken the IF slot never
    holds a NOP, neither after the control part of the decode stage (the
    [beq] is still there), nor at the end of the stage (the slot is empty),
    nor at the end of the cycle.  Besides, the registers are compared after
    [|| 0]: with $s1 undefined and $s0 = 0 the two values differ and the
    branch is taken all the same. *)
Lemma executeID_not_taken_writes_no_nop :
  (IF_of beq_not_taken_state = Some beq_instruction /\
   PC beq_not_taken_state = VNum 0 /\
   PC (executeID beq_not_taken_state) = VNum 4 /\
   ~ (IF_of (executeID_control beq_instruction beq_not_taken_state) = Some nop
      \/ IF_of (executeID beq_not_taken_state) = Some nop
      \/ IF_of (executeCycle beq_not_taken_state) = Some nop)) /\
  (IF_of beq_undefined_state =
     Some (mkInstruction I_TYPE "beq" (Some 1) (Some 0) None (Some 0) None None) /\
   reg beq_undefined_state (Some 1) = VUndef /\
   reg beq_undefined_state (Some 0) = VNum 0 /\
   PC beq_undefined_state = VNum 16 /\
   PC (executeID beq_undefined_state) = VNum 0).
Proof.
  split.
  - split; [vm_compute; reflexivity|]. split; [vm_compute; reflexivity|].
    split; [vm_compute; reflexivity|].
    intros [H|[H|H]]; vm_compute in H; discriminate.
  - vm_compute. repeat split.
Qed.

Lemma or_else_number (n : Z) : or_else (VNum n) (VNum 0) = VNum n.
Proof.
  unfold or_else, truthy. destruct (Z.eqb_spec n 0) as [->|]; reflexivity.
Qed.

Lemma beq_taken_numbers s i (x y : Z) :
  reg s (rs i) = VNum x -> reg s (rt i) = VNum y ->
  beq_taken s i = (x =? y).
Proof.
  intros Hx Hy. unfold beq_taken. by rewrite Hx, Hy, !or_else_number.
Qed.

Lemma executeID_beq_PC s i :
  IF_of s = Some i -> opcode i = "beq" ->
  PC (executeID s) =
  (if beq_taken s i then mul (of_field (offset i)) (VNum 4)
   else add (PC s) (VNum 4)).
Proof.
  intros Hif Hop. unfold executeID. rewrite Hif.
  unfold executeID_control, Opcode.BEQ, Opcode.J, beq_taken.
  rewrite Hop. cbn [String.eqb Ascii.eqb Bool.eqb orb].
  by destruct (strict_eq _ _).
Qed.

Lemma strict_eq_or_else_refl (v : value) :
  strict_eq (or_else v (VNum 0)) (or_else v (VNum 0)) = true.
Proof.
  destruct v as [|[]|n|]; try reflexivity.
  rewrite or_else_number. cbn. apply Z.eqb_refl.
Qed.

(** A [beq] that compares a register with itself is always taken, whatever
    the register holds: decoding [beq $sN, $sN, 0] sets PC to 0. *)
Lemma beq_same_register_taken s i : rs i = rt i -> beq_taken s i = true.
Proof.
  intros H. unfold beq_taken. rewrite H. apply strict_eq_or_else_refl.
Qed.

Lemma executeID_beq_same_register s i :
  IF_of s = Some i -> opcode i = "beq" -> rs i = rt i -> offset i = Some 0 ->
  PC (executeID s) = VNum 0.
Proof.
  intros Hif Hop Hreg Hoff.
  by rewrite (executeID_beq_PC s i Hif Hop), beq_same_register_taken, Hoff.
Qed.

(** C2, amended. For a [beq] in IF, the decode stage sets PC to offset*4
    when the two registers, read with falsy values replaced by 0, are
    strictly equal and to PC+4 otherwise (on registers that hold numbers:
    when the two numbers are equal); the control part writes a NOP into IF
    when the branch is taken and leaves IF alone when it is not; for a [j]
    in IF it sets PC to target*4 and writes a NOP into IF.  In every case
    the stage ends with the [beq] or [j] itself latched into ID and with
    the IF slot empty. *)
Theorem executeID_control_flow (s : MIPSPipeline) (i : Instruction) :
  IF_of s = Some i ->
  (opcode i = "beq" ->
     PC (executeID s) =
       (if beq_taken s i then mul (of_field (offset i)) (VNum 4)
        else add (PC s) (VNum 4)) /\
     IF_of (executeID_control i s) =
       (if beq_taken s i then Some nop else Some i) /\
     forall x y k p : Z,
       reg s (rs i) = VNum x -> reg s (rt i) = VNum y ->
       offset i = Some k -> PC s = VNum p ->
       PC (executeID s) = VNum (if x =? y then k * 4 else p + 4)) /\
  (opcode i = "j" ->
     PC (executeID s) = mul (of_field (target i)) (VNum 4) /\
     IF_of (executeID_control i s) = Some nop /\
     forall k : Z, target i = Some k -> PC (executeID s) = VNum (k * 4)) /\
  (opcode i = "beq" \/ opcode i = "j" ->
     IF_of (executeID s) = None /\
     ID_of (executeID s) = Some (decoded s i)).
Proof.
  intros Hif.
  split; [|split].
  - intros Hop. pose proof (executeID_beq_PC s i Hif Hop) as HPC.
    unfold executeID in *. rewrite Hif in *.
    split; [exact HPC|]. split.
    + unfold executeID_control, Opcode.BEQ, Opcode.J, beq_taken.
      rewrite Hop. cbn [String.eqb Ascii.eqb Bool.eqb orb].
      destruct (strict_eq _ _); [reflexivity | exact Hif].
    + intros x y k p Hx Hy Hk Hp.
      rewrite HPC, (beq_taken_numbers s i x y Hx Hy), Hk, Hp.
      by destruct (x =? y).
  - intros Hop. unfold executeID. rewrite Hif.
    assert (HPC : PC (executeID_latch i (executeID_control i s)) =
                  mul (of_field (target i)) (VNum 4)).
    { unfold executeID_control, Opcode.BEQ, Opcode.J. rewrite Hop. by cbn. }
    split; [exact HPC|]. split.
    + unfold executeID_control, Opcode.BEQ, Opcode.J. rewrite Hop. by cbn.
    + intros k Hk. by rewrite HPC, Hk.
  - intros Hop. unfold executeID. rewrite Hif.
    unfold executeID_control, Opcode.BEQ, Opcode.J, decoded.
    destruct Hop as [Hop|Hop]; rewrite Hop; cbn -[or_else reg mul add strict_eq].
    + by destruct (strict_eq _ _).
    + done.
Qed.

Lemma executeID_control_flow_witness :
  PC (executeID beq_not_taken_state) = VNum 4 /\
  IF_of (executeID beq_not_taken_state) = None /\
  ID_of (executeID beq_not_taken_state) =
    Some (mkIDLatch beq_instruction (VNum 1) (VNum 2)).
Proof.
  assert (Hif : IF_of beq_not_taken_state = Some beq_instruction)
    by (vm_compute; reflexivity).
  destruct (executeID_control_flow beq_not_taken_state beq_instruction Hif)
    as (H1 & _ & H3).
  destruct (H1 eq_refl) as (HPC & _ & _).
  destruct (H3 (or_introl eq_refl)) as (HIF & HID).
  split; [rewrite HPC; vm_compute; reflexivity|].
  split; [exact HIF | rewrite HID; vm_compute; reflexivity].
Defined.

(** ** The loop scenario *)

(** C5 fails as stated: the operands of [beq $s0,$s0,loop] are not
    separated by white space, the loader rejects the line and stores no
    instruction, so that no branch is ever decoded (the label itself is
    bound to 0). *)
Lemma loop_without_spaces_is_rejected :
  firstPass (JS.split "010" "loop: beq $s0,$s0,loop") !! "loop" = Some 0 /\
  instructionCache (loadProgram constructor "loop: beq $s0,$s0,loop") = ∅ /\
  ~ first_decode_redirects "loop: beq $s0,$s0,loop".
Proof.
  split; [vm_compute; reflexivity|]. split; [vm_compute; reflexivity|].
  intros (_ & n & i & _ & Hif & _).
  set (s := loadProgram constructor "loop: beq $s0,$s0,loop") in Hif.
  assert (H0 : IF_of s = None) by reflexivity.
  assert (Hfetch : fetchInstruction s (PC s) = None) by (vm_compute; reflexivity).
  destruct (run_cycles_idle n s H0 Hfetch) as (_ & H & _).
  destruct (before_decode_frame (run_cycles n s)) as (_ & _ & F).
  congruence.
Qed.

(** C5, amended. For the program made of the single line
    [loop: beq $s0, $s0, loop], whose operands are separated by white
    space, the loader binds [loop] to the instruction index 0 and the first
    decode, which is the decode of that branch in the second cycle, sets PC
    to 0. *)
Theorem loop_with_spaces_redirects_to_0 :
  first_decode_redirects "loop: beq $s0, $s0, loop".
Proof.
  split; [vm_compute; reflexivity|].
  exists 1%nat,
    (mkInstruction I_TYPE "beq" (Some 0) (Some 0) None (Some 0) None (Some "loop")).
  split; [|split; [|split]].
  - intros m Hm. assert (m = 0%nat) as -> by lia. vm_compute. reflexivity.
  - vm_compute. reflexivity.
  - reflexivity.
  - vm_compute. reflexivity.
Qed.

(** ** Loader: addresses of the instruction store *)

Lemma secondPass_app labels l1 l2 st :
  secondPass labels (l1 ++ l2) st = secondPass labels l2 (secondPass labels l1 st).
Proof. unfold secondPass. apply fold_left_app. Qed.

Lemma secondPass_line_address labels address cache line :
  fst (secondPass_line labels (address, cache) line) =
  if holdsInstruction line then address + 4 else address.
Proof.
  unfold secondPass_line. destruct (holdsInstruction line); [|reflexivity].
  by destruct (parseInstruction _ _).
Qed.

Lemma secondPass_address labels lines address cache :
  fst (secondPass labels lines (address, cache)) =
  address + 4 * instruction_lines lines.
Proof.
  revert address cache. induction lines as [|l lines IH]; intros address cache.
  - unfold instruction_lines. cbn. lia.
  - unfold secondPass in *. cbn [fold_left].
    destruct (secondPass_line labels (address, cache) l) as [a' c'] eqn:E.
    rewrite IH.
    pose proof (secondPass_line_address labels address cache l) as Ha.
    rewrite E in Ha. cbn [fst] in Ha. subst a'.
    unfold instruction_lines. rewrite filter_cons.
    destruct (decide (holdsInstruction l = true)) as [H|H].
    + rewrite H. cbn [length]. lia.
    + apply not_true_is_false in H. rewrite H. lia.
Qed.

Lemma instruction_lines_nonneg lines : 0 <= instruction_lines lines.
Proof. unfold instruction_lines. lia. Qed.

(** A pass that starts at [address] leaves the store below [address] as it
    was, and every entry it adds is at [address] plus a multiple of 4. *)
Lemma secondPass_line_store labels address cache line (k : Z) :
  snd (secondPass_line labels (address, cache) line) !! k = cache !! k \/
  (k = address /\ holdsInstruction line = true /\
   snd (secondPass_line labels (address, cache) line) !! k =
   parseInstruction (instructionText line) labels /\
   is_Some (parseInstruction (instructionText line) labels)).
Proof.
  unfold secondPass_line. destruct (holdsInstruction line); [|by left].
  destruct (parseInstruction _ _) as [i|]; [|by left].
  cbn [snd]. destruct (decide (address = k)) as [->|Hne].
  - right. rewrite lookup_insert_eq. eauto.
  - left. by apply lookup_insert_ne.
Qed.

Lemma secondPass_store labels lines address cache (k : Z) :
  snd (secondPass labels lines (address, cache)) !! k = cache !! k \/
  (address <= k < address + 4 * instruction_lines lines /\
   (k - address) mod 4 = 0).
Proof.
  revert address cache. induction lines as [|l lines IH]; intros address cache.
  - by left.
  - change (l :: lines) with ([l] ++ lines). rewrite secondPass_app.
    change (secondPass labels [l] (address, cache))
      with (secondPass_line labels (address, cache) l).
    pose proof (secondPass_line_address labels address cache l) as Ha.
    pose proof (secondPass_line_store labels address cache l k) as Hs.
    destruct (secondPass_line labels (address, cache) l) as [a' c'].
    cbn [fst snd] in Ha, Hs. subst a'.
    pose proof (instruction_lines_nonneg lines) as Hn.
    assert (Hcount : instruction_lines ([l] ++ lines) =
                     (if holdsInstruction l then 1 else 0) + instruction_lines lines).
    { unfold instruction_lines. cbn [app]. rewrite filter_cons.
      destruct (decide (holdsInstruction l = true)) as [H|H].
      - rewrite H. cbn [length]. lia.
      - apply not_true_is_false in H. rewrite H. lia. }
    rewrite Hcount.
    destruct (IH (if holdsInstruction l then address + 4 else address) c')
      as [E|[Hr Hm]].
    + rewrite E. destruct Hs as [Hs|(-> & Hh & _ & _)]; [by left|].
      right. rewrite Hh. split; [lia|]. by rewrite Z.sub_diag.
    + right. destruct (holdsInstruction l).
      * split; [lia|].
        replace (k - address) with ((k - (address + 4)) + 1 * 4) by lia.
        by rewrite Z.mod_add.
      * split; [lia | exact Hm].
Qed.

(** C7. After [loadProgram] every address of the instruction store is a
    multiple of 4.  A line that takes an address but whose instruction the
    parser rejects stores nothing at its address, which stays empty in the
    loaded store, and the address counter still advances by 4 over it. *)
Theorem loadProgram_addresses (s : MIPSPipeline) (programText : string) :
  let lines := JS.split "010" programText in
  let labels := firstPass lines in
  (forall (a : Z) (i : Instruction),
     instructionCache (loadProgram s programText) !! a = Some i ->
     a mod 4 = 0 /\ 0 <= a) /\
  (forall (before after : list string) (line : string),
     lines = before ++ line :: after ->
     holdsInstruction line = true ->
     parseInstruction (instructionText line) labels = None ->
     let a := fst (loaded labels before) in
     a = 4 * instruction_lines before /\
     instructionCache (loadProgram s programText) !! a = None /\
     fst (loaded labels (before ++ [line])) = a + 4).
Proof.
  intros lines labels. split.
  - intros a i H.
    change (snd (secondPass labels lines (0, ∅)) !! a = Some i) in H.
    destruct (secondPass_store labels lines 0 ∅ a) as [E|[Hr Hm]].
    + rewrite E, lookup_empty in H. discriminate.
    + rewrite Z.sub_0_r in Hm. split; [exact Hm | lia].
  - intros before after line Hlines Hholds Hparse a. subst a.
    unfold loaded. rewrite !secondPass_address.
    split; [lia|]. split.
    + change (snd (secondPass labels lines (0, ∅))
                !! (0 + 4 * instruction_lines before) = None).
      rewrite Hlines.
      change (line :: after) with ([line] ++ after).
      rewrite !secondPass_app.
      destruct (secondPass labels before (0, ∅)) as [a1 c1] eqn:E1.
      pose proof (secondPass_address labels before 0 ∅) as Ha1.
      rewrite E1 in Ha1. cbn [fst] in Ha1.
      assert (Hc1 : c1 !! a1 = None).
      { destruct (secondPass_store labels before 0 ∅ a1) as [E|[Hr _]].
        - rewrite E1 in E. cbn [snd] in E. by rewrite E, lookup_empty.
        - lia. }
      assert (Hl : secondPass labels [line] (a1, c1) = (a1 + 4, c1)).
      { unfold secondPass. cbn [fold_left]. unfold secondPass_line.
        by rewrite Hholds, Hparse. }
      rewrite Hl, <- Ha1.
      destruct (secondPass_store labels after (a1 + 4) c1 a1) as [E|[Hr _]].
      * by rewrite E.
      * lia.
    + unfold instruction_lines. rewrite filter_app, length_app.
      rewrite filter_cons. destruct (decide _) as [_|H]; [|contradiction].
      cbn [filter length]. rewrite filter_nil. cbn [length]. lia.
Qed.

Lemma loadProgram_addresses_witness :
  instructionCache (loadProgram constructor hole_program) !! 0 = None /\
  instructionCache (loadProgram constructor hole_program) !! 4 = Some nop /\
  4 mod 4 = 0.
Proof.
  destruct (loadProgram_addresses constructor hole_program) as (H1 & H2).
  assert (Hlines : JS.split "010" hole_program =
                   [] ++ "add $t1, $s0, $s0" :: ["nop"])
    by (vm_compute; reflexivity).
  assert (Hholds : holdsInstruction "add $t1, $s0, $s0" = true)
    by (vm_compute; reflexivity).
  assert (Hparse : parseInstruction (instructionText "add $t1, $s0, $s0")
                     (firstPass (JS.split "010" hole_program)) = None)
    by (vm_compute; reflexivity).
  destruct (H2 [] ["nop"] "add $t1, $s0, $s0" Hlines Hholds Hparse)
    as (_ & Hhole & _).
  assert (Hnop : instructionCache (loadProgram constructor hole_program) !! 4
                 = Some nop) by (vm_compute; reflexivity).
  split; [exact Hhole|]. split; [exact Hnop|].
  exact (proj1 (H1 4 nop Hnop)).
Defined.

(** ** Loader: the offset of lw and sw is always a number *)

Lemma span_all_chars (p : ascii -> bool) (s : string) :
  all_chars p (fst (span p s)) = true.
Proof.
  induction s as [|c r IH]; [reflexivity|].
  cbn [span]. destruct (p c) eqn:E; [|reflexivity].
  destruct (span p r) as [a b]. cbn [fst all_chars] in *. by rewrite E, IH.
Qed.

Lemma read_digits_Some (radix a : Z) (s : string) :
  is_Some (read_digits radix (Some a) s).
Proof.
  revert a. induction s as [|c r IH]; intros a; cbn [read_digits]; [eauto|].
  destruct (digit_value c) as [d|]; [|eauto].
  destruct (d <? radix); [apply IH | eauto].
Qed.

Ltac split_char c H :=
  destruct c as [[] [] [] [] [] [] [] []];
  try (vm_compute in H; discriminate H); clear H.

Lemma strip_sign_digit (c : ascii) (r : string) :
  is_digit c = true -> strip_sign (String c r) = (false, String c r).
Proof. intros Hc. split_char c Hc; reflexivity. Qed.

Lemma trimStart_digit (c : ascii) (r : string) :
  is_digit c = true -> trimStart (String c r) = String c r.
Proof. intros Hc. split_char c Hc; reflexivity. Qed.

Lemma strip_radix_digits (s : string) :
  all_chars is_digit s = true -> strip_radix s = (10, s).
Proof.
  destruct s as [|c r]; [reflexivity|].
  cbn [all_chars]. intros [Hc Hr]%andb_true_iff.
  split_char c Hc; try reflexivity.
  destruct r as [|c2 r2]; [reflexivity|].
  cbn [all_chars] in Hr. apply andb_true_iff in Hr as [Hc2 _].
  split_char c2 Hc2; reflexivity.
Qed.

Lemma read_digits_decimal (c : ascii) (r : string) :
  is_digit c = true -> is_Some (read_digits 10 None (String c r)).
Proof.
  intros Hc. cbn [read_digits]. unfold digit_value. rewrite Hc.
  assert (Hlt : (Z.of_N (code c) - 48 <? 10) = true).
  { unfold is_digit, between in Hc. apply andb_true_iff in Hc as [_ Hc].
    apply N.leb_le in Hc. apply Z.ltb_lt. lia. }
  rewrite Hlt. apply read_digits_Some.
Qed.

Lemma parseInt_of_digits (negative : bool) (digits : string) :
  is_empty digits = false -> all_chars is_digit digits = true ->
  is_Some (parseInt ((if negative then "-" else "") +:+ digits)).
Proof.
  intros Hne Hall. destruct digits as [|c r]; [discriminate|]. clear Hne.
  pose proof Hall as Hall'.
  cbn [all_chars] in Hall'. apply andb_true_iff in Hall' as [Hc _].
  destruct (read_digits_decimal c r Hc) as [n Hn].
  unfold parseInt. destruct negative.
  - change (strip_sign (trimStart ("-" +:+ String c r))) with (true, String c r).
    cbv iota beta. rewrite strip_radix_digits by exact Hall. rewrite Hn. eauto.
  - change ("" +:+ String c r) with (String c r).
    rewrite trimStart_digit, strip_sign_digit by exact Hc.
    cbv iota beta. rewrite strip_radix_digits by exact Hall. rewrite Hn. eauto.
Qed.

Lemma offsetMatch_here_parseInt (s g1 g2 : string) :
  offsetMatch_here s = Some (g1, g2) -> is_Some (parseInt g1).
Proof.
  unfold offsetMatch_here.
  set (split1 := match s with String "-" r => ("-", r) | _ => ("", s) end).
  assert (Hsign : fst split1 = "-" \/ fst split1 = "").
  { subst split1. destruct s as [|c r]; [by right|].
    destruct c as [[] [] [] [] [] [] [] []]; auto. }
  destruct split1 as [sign s1]. cbn [fst] in Hsign.
  pose proof (span_all_chars is_digit s1) as Hall.
  destruct (span is_digit s1) as [digits s2]. cbn [fst] in Hall.
  destruct (is_empty digits) eqn:Hne; [discriminate|].
  destruct s2 as [|c2 s2]; [discriminate|].
  destruct (Ascii.eqb_spec c2 "("); [subst c2 | by destruct c2 as [[] [] [] [] [] [] [] []]].
  destruct s2 as [|c3 s3]; [discriminate|].
  destruct (Ascii.eqb_spec c3 "$"); [subst c3 | by destruct c3 as [[] [] [] [] [] [] [] []]].
  destruct (span is_word s3) as [name s4].
  destruct (is_empty name); [discriminate|].
  destruct s4 as [|c4 s4]; [discriminate|].
  destruct (Ascii.eqb_spec c4 ")"); [subst c4 | by destruct c4 as [[] [] [] [] [] [] [] []]].
  intros [= <- _].
  destruct Hsign as [-> | ->].
  - by apply (parseInt_of_digits true).
  - by apply (parseInt_of_digits false).
Qed.

(** The first group of a match of the operand expression always parses to
    a number, so that [parseITypeInstruction] never meets a NaN offset on
    [lw] and [sw]. *)
Lemma offsetMatch_parseInt (s g1 g2 : string) :
  offsetMatch s = Some (g1, g2) -> is_Some (parseInt g1).
Proof.
  induction s as [|c r IH]; cbn [offsetMatch].
  - destruct (offsetMatch_here "") as [[a b]|] eqn:E; [|discriminate].
    intros [= <- <-]. by eapply offsetMatch_here_parseInt.
  - destruct (offsetMatch_here (String c r)) as [[a b]|] eqn:E.
    + intros [= <- <-]. by eapply offsetMatch_here_parseInt.
    + exact IH.
Qed.

(** ** Shapes of the loaded instructions and reachable engines *)

Lemma parseITypeInstruction_shape parts labels i :
  parseITypeInstruction parts labels = Some i -> parsed_shape i.
Proof.
  unfold parseITypeInstruction. destruct parts as [|p0 ops]; [discriminate|].
  destruct (String.eqb (toLowerCase p0) "beq") eqn:Ebeq.
  - destruct ops as [|p1 [|p2 [|p3 [|]]]]; try discriminate.
    destruct (parseRegister p1), (parseRegister p2), (resolve labels p3);
      try discriminate.
    intros [= <-]. unfold parsed_shape. cbn. eauto 10.
  - destruct (String.eqb (toLowerCase p0) "lw" || String.eqb (toLowerCase p0) "sw")
      eqn:Emem; [|discriminate].
    destruct ops as [|p1 [|p2 [|]]]; try discriminate.
    destruct (offsetMatch p2) as [[g1 g2]|]; [|discriminate].
    destruct (parseRegister g2), (parseRegister p1), (parseInt g1);
      try discriminate.
    intros [= <-]. unfold parsed_shape. cbn.
    apply orb_true_iff in Emem. rewrite !eqb_true_iff in Emem.
    split; [tauto | eauto].
Qed.

Lemma parseJTypeInstruction_shape p0 ops labels i :
  toLowerCase p0 = "j" ->
  parseJTypeInstruction (p0 :: ops) labels = Some i -> parsed_shape i.
Proof.
  intros Hj. unfold parseJTypeInstruction.
  destruct ops as [|p1 [|]]; try discriminate.
  destruct (resolve labels p1); [|discriminate].
  intros [= <-]. unfold parsed_shape. cbn. eauto.
Qed.

Lemma parseInstruction_shape line labels i :
  parseInstruction line labels = Some i -> parsed_shape i.
Proof.
  unfold parseInstruction.
  destruct (is_empty _); [discriminate|].
  destruct (split_spaces _) as [|p0 ops]; [discriminate|].
  set (parts := p0 :: map _ ops).
  destruct (String.eqb (toLowerCase p0) "add" || String.eqb (toLowerCase p0) "sub"
            || String.eqb (toLowerCase p0) "mul") eqn:Earith.
  - intros H. apply parseRTypeInstruction_fields in H as (Ht & Ho & Hs).
    unfold parsed_shape. rewrite Ht, Ho. subst parts. cbn [hd].
    split; [|exact Hs]. unfold arithmetic.
    rewrite !orb_true_iff, !eqb_true_iff in Earith. tauto.
  - destruct (String.eqb (toLowerCase p0) "lw" || String.eqb (toLowerCase p0) "sw"
              || String.eqb (toLowerCase p0) "beq");
      [apply parseITypeInstruction_shape|].
    destruct (String.eqb (toLowerCase p0) "j") eqn:Ej.
    + apply eqb_true_iff in Ej. by apply parseJTypeInstruction_shape.
    + destruct (String.eqb (toLowerCase p0) "nop"); [|discriminate].
      intros [= <-]. reflexivity.
Qed.

Lemma secondPass_shape labels lines address cache :
  (forall k i, cache !! k = Some i -> parsed_shape i) ->
  forall k i, snd (secondPass labels lines (address, cache)) !! k = Some i ->
              parsed_shape i.
Proof.
  revert address cache. induction lines as [|l lines IH]; intros address cache H.
  - exact H.
  - change (l :: lines) with ([l] ++ lines). rewrite secondPass_app.
    change (secondPass labels [l] (address, cache))
      with (secondPass_line labels (address, cache) l).
    destruct (secondPass_line labels (address, cache) l) as [a' c'] eqn:E.
    apply IH. intros k i Hk.
    destruct (secondPass_line_store labels address cache l k) as [Hs|(_ & _ & Hs & _)];
      rewrite E in Hs; cbn [snd] in Hs; rewrite Hs in Hk.
    + by eapply H.
    + by eapply parseInstruction_shape.
Qed.

Lemma forward_instruction producer res d :
  id_instruction (forward producer res d) = id_instruction d.
Proof.
  unfold forward. destruct (decide _); [|done].
  destruct (field_eq (rs _) _); cbn [id_instruction];
    by destruct (field_eq (rt _) _).
Qed.

Lemma set_IF_ok x p :
  stages_ok p -> (forall i, x = Some i -> parsed_shape i) -> stages_ok (set_IF x p).
Proof. intros (H1 & H2 & H3 & H4 & H5) H. by repeat split. Qed.

Lemma set_ID_ok x p :
  stages_ok p -> (forall d, x = Some d -> parsed_shape (id_instruction d)) ->
  stages_ok (set_ID x p).
Proof. intros (H1 & H2 & H3 & H4 & H5) H. by repeat split. Qed.

Lemma set_EX_ok x p :
  stages_ok p -> (forall l, x = Some l -> parsed_shape (instruction l)) ->
  stages_ok (set_EX x p).
Proof. intros (H1 & H2 & H3 & H4 & H5) H. by repeat split. Qed.

Lemma set_MEM_ok x p :
  stages_ok p -> (forall l, x = Some l -> parsed_shape (instruction l)) ->
  stages_ok (set_MEM x p).
Proof. intros (H1 & H2 & H3 & H4 & H5) H. by repeat split. Qed.

Lemma set_WB_ok x p :
  stages_ok p -> (forall l, x = Some l -> parsed_shape (instruction l)) ->
  stages_ok (set_WB x p).
Proof. intros (H1 & H2 & H3 & H4 & H5) H. by repeat split. Qed.

Lemma on_stages_ok f s :
  engine_ok s -> stages_ok (f (pipelineStages s)) -> engine_ok (on_stages f s).
Proof. intros (HPC & Hc & _) H. split; [exact HPC|]. split; [exact Hc | exact H]. Qed.

Lemma executeForwarding_ok s : engine_ok s -> engine_ok (executeForwarding s).
Proof.
  intros H. unfold executeForwarding.
  destruct (ID_of s) as [d|] eqn:Ed; [|exact H].
  destruct (EX_of s) as [ex|]; [|exact H].
  apply on_stages_ok; [exact H|].
  destruct H as (_ & _ & Hs). apply set_ID_ok; [exact Hs|].
  intros d' [= <-].
  destruct Hs as (_ & Hid & _).
  destruct (MEM_of s); rewrite ?forward_instruction; by apply Hid.
Qed.

Lemma executeWB_ok s : engine_ok s -> engine_ok (executeWB s).
Proof.
  intros H. unfold executeWB. destruct (MEM_of s) as [m|] eqn:Em; [|exact H].
  cbn zeta.
  assert (Hm : parsed_shape (instruction m)).
  { destruct H as (_ & _ & _ & _ & _ & Hmem & _). by apply Hmem. }
  assert (Hregs : forall x, engine_ok (with_registradores x s)) by (intros x; exact H).
  set (s1 := if decide _ then _ else _).
  assert (H1 : engine_ok s1).
  { subst s1. destruct (decide _); [apply Hregs|].
    destruct (String.eqb _ _); [apply Hregs | exact H]. }
  clearbody s1.
  apply on_stages_ok.
  - apply on_stages_ok; [exact H1|].
    destruct H1 as (_ & _ & Hs). apply set_WB_ok; [exact Hs|]. by intros l [= <-].
  - apply set_MEM_ok; [|discriminate].
    destruct H1 as (_ & _ & Hs). apply set_WB_ok; [exact Hs|]. by intros l [= <-].
Qed.

Lemma executeMEM_ok s : engine_ok s -> engine_ok (executeMEM s).
Proof.
  intros H. unfold executeMEM. destruct (EX_of s) as [e|] eqn:Ee; [|exact H].
  cbn zeta.
  assert (He : parsed_shape (instruction e)).
  { destruct H as (_ & _ & _ & _ & Hex & _). by apply Hex. }
  assert (Hmem : forall x, engine_ok (with_memoria x s)) by (intros x; exact H).
  destruct (if String.eqb (opcode (instruction e)) Opcode.LW then _ else _)
    as [r s1] eqn:E.
  assert (H1 : engine_ok s1).
  { destruct (String.eqb (opcode (instruction e)) Opcode.LW);
      [by injection E as _ <-|].
    destruct (String.eqb (opcode (instruction e)) Opcode.SW);
      injection E as _ <-; [apply Hmem | exact H]. }
  apply on_stages_ok.
  - apply on_stages_ok; [exact H1|].
    destruct H1 as (_ & _ & Hs). apply set_MEM_ok; [exact Hs|]. by intros l [= <-].
  - apply set_EX_ok; [|discriminate].
    destruct H1 as (_ & _ & Hs). apply set_MEM_ok; [exact Hs|]. by intros l [= <-].
Qed.

Lemma executeEX_ok s : engine_ok s -> engine_ok (executeEX s).
Proof.
  intros H. unfold executeEX. destruct (ID_of s) as [d|] eqn:Ed; [|exact H].
  cbn zeta.
  assert (Hd : parsed_shape (id_instruction d)).
  { destruct H as (_ & _ & _ & Hid & _). by apply Hid. }
  apply on_stages_ok.
  - apply on_stages_ok; [exact H|].
    destruct H as (_ & _ & Hs). apply set_EX_ok; [exact Hs|]. by intros l [= <-].
  - apply set_ID_ok; [|discriminate].
    destruct H as (_ & _ & Hs). apply set_EX_ok; [exact Hs|]. by intros l [= <-].
Qed.

Lemma mul_4_number (f : option Z) :
  is_Some f -> exists n, mul (of_field f) (VNum 4) = VNum n.
Proof. intros [k ->]. by exists (k * 4). Qed.

Lemma with_PC_ok (v : value) s :
  engine_ok s -> (exists n, v = VNum n) -> engine_ok (with_PC v s).
Proof. intros (_ & Hc & Hs) Hv. split; [exact Hv|]. split; [exact Hc | exact Hs]. Qed.

Lemma nop_shape : parsed_shape nop.
Proof. reflexivity. Qed.

Lemma executeID_control_ok i s :
  engine_ok s -> parsed_shape i -> engine_ok (executeID_control i s).
Proof.
  intros H Hi. unfold executeID_control, Opcode.BEQ, Opcode.J.
  assert (Hnext : engine_ok (with_PC (add (PC s) (VNum 4)) s)).
  { apply with_PC_ok; [exact H|]. destruct H as ([n ->] & _). by exists (n + 4). }
  assert (Hnop : forall s', engine_ok s' -> engine_ok (on_stages (set_IF (Some nop)) s')).
  { intros s' H'. apply on_stages_ok; [exact H'|].
    destruct H' as (_ & _ & Hs). apply set_IF_ok; [exact Hs|].
    intros j [= <-]. exact nop_shape. }
  destruct (String.eqb (opcode i) "beq") eqn:Eb; cbn [orb].
  - apply eqb_true_iff in Eb. destruct (strict_eq _ _); [|exact Hnext].
    apply Hnop, with_PC_ok; [exact H|]. apply mul_4_number.
    by apply parsed_shape_beq.
  - destruct (String.eqb (opcode i) "j") eqn:Ej; [|exact Hnext].
    apply eqb_true_iff in Ej.
    apply Hnop, with_PC_ok; [exact H|]. apply mul_4_number.
    by apply parsed_shape_j.
Qed.

Lemma executeID_ok s : engine_ok s -> engine_ok (executeID s).
Proof.
  intros H. unfold executeID. destruct (IF_of s) as [i|] eqn:Ei; [|exact H].
  assert (Hi : parsed_shape i).
  { destruct H as (_ & _ & Hif & _). by apply Hif. }
  pose proof (executeID_control_ok i s H Hi) as H1.
  unfold executeID_latch.
  apply on_stages_ok.
  - apply on_stages_ok; [exact H1|].
    destruct H1 as (_ & _ & Hs). apply set_ID_ok; [exact Hs|]. by intros l [= <-].
  - apply set_IF_ok; [|discriminate].
    destruct H1 as (_ & _ & Hs). apply set_ID_ok; [exact Hs|]. by intros l [= <-].
Qed.

Lemma executeIF_ok s : engine_ok s -> engine_ok (executeIF s).
Proof.
  intros H. unfold executeIF. destruct (negb _); [|exact H].
  destruct (fetchInstruction s (PC s)) as [i|] eqn:Ef; [|exact H].
  apply on_stages_ok; [exact H|].
  destruct H as (_ & Hc & Hs). apply set_IF_ok; [exact Hs|].
  intros i' [= <-]. unfold fetchInstruction in Ef.
  destruct (PC s); try discriminate. by eapply Hc.
Qed.

Lemma executeCycle_ok s : engine_ok s -> engine_ok (executeCycle s).
Proof.
  intros H. unfold executeCycle. cbn zeta.
  apply executeForwarding_ok in H.
  set (s1 := with_stalled _ _).
  assert (H1 : engine_ok s1) by exact H.
  apply executeWB_ok, executeMEM_ok, executeEX_ok, executeID_ok, executeIF_ok in H1.
  exact H1.
Qed.

Lemma constructor_ok : engine_ok constructor.
Proof.
  split; [by exists 0|]. split.
  - intros a i. cbn. by rewrite lookup_empty.
  - by repeat split.
Qed.

Lemma perform_ok s c : engine_ok s -> engine_ok (perform s c).
Proof.
  intros H. destruct c as [a|a taken| |text| |index v|address v]; cbn [perform].
  - exact H.
  - exact H.
  - by apply executeCycle_ok.
  - destruct H as (_ & _ & H). split; [by exists 0|]. split; [|exact H].
    intros a i. unfold loadProgram, loadedCache.
    cbn [instructionCache with_instructionCache].
    apply secondPass_shape. intros k j. by rewrite lookup_empty.
  - unfold reset. split; [by exists 0|]. split.
    + intros a i. cbn [instructionCache]. by rewrite lookup_empty.
    + by repeat split.
  - exact H.
  - exact H.
Qed.

(** Every engine reached from a fresh one holds parsed instructions only
    and a numeric PC. *)
Lemma after_calls_ok (calls : list call) : engine_ok (after_calls calls).
Proof.
  unfold after_calls. generalize constructor_ok. generalize constructor.
  induction calls as [|c calls IH]; intros s H; [exact H|].
  cbn [fold_left]. apply IH. by apply perform_ok.
Qed.

(** On a reachable engine the three cases of write-back are told apart by
    the opcode alone: a [lw] in MEM writes rt. *)
Lemma executeWB_lw_reachable (calls : list call) (mem : Latch) :
  MEM_of (after_calls calls) = Some mem ->
  opcode (instruction mem) = "lw" ->
  registradores (executeWB (after_calls calls)) =
  <[field_key (rt (instruction mem)) := result mem]>
    (registradores (after_calls calls)).
Proof.
  intros Hmem Hop.
  destruct (after_calls_ok calls) as (_ & _ & _ & _ & _ & Hm & _).
  pose proof (parsed_shape_lw _ (Hm _ Hmem) Hop) as HR.
  unfold executeWB. rewrite Hmem. cbn zeta.
  destruct (decide _); [contradiction|].
  unfold Opcode.LW. rewrite Hop. reflexivity.
Qed.

(** * Further properties of the engine *)

(** ** Forwarding unit: frame and composition *)

Lemma on_stages_same_ID s : on_stages (set_ID (ID_of s)) s = s.
Proof. by destruct s as [? ? [] ? ? ? ? ? ? ? ?]. Qed.

Lemma forward_eq producer res d :
  forward producer res d =
  mkIDLatch (id_instruction d)
    (if bool_decide (type producer = R_TYPE)
        && field_eq (rs (id_instruction d)) (rd producer)
     then res else rsValue d)
    (if bool_decide (type producer = R_TYPE)
        && field_eq (rt (id_instruction d)) (rd producer)
     then res else rtValue d).
Proof.
  unfold forward. destruct d as [i a b]. cbn [id_instruction rsValue rtValue].
  destruct (decide (type producer = R_TYPE)) as [H|H].
  - rewrite (bool_decide_eq_true_2 _ H). cbn [andb].
    destruct (field_eq (rs i) (rd producer)); cbn [id_instruction rsValue];
      by destruct (field_eq (rt i) (rd producer)).
  - by rewrite (bool_decide_eq_false_2 _ H).
Qed.

(** The ID payload after forwarding, in closed form: the MEM block has
    the last word on each operand. *)
Lemma executeForwarding_ID s d ex :
  ID_of s = Some d -> EX_of s = Some ex ->
  ID_of (executeForwarding s) =
  Some (mkIDLatch (id_instruction d)
          (if produces (MEM_of s) (rs (id_instruction d))
           then default VUndef (result <$> MEM_of s)
           else if produces (Some ex) (rs (id_instruction d))
                then result ex else rsValue d)
          (if produces (MEM_of s) (rt (id_instruction d))
           then default VUndef (result <$> MEM_of s)
           else if produces (Some ex) (rt (id_instruction d))
                then result ex else rtValue d)).
Proof.
  intros Hid Hex. unfold executeForwarding. rewrite Hid, Hex.
  destruct (MEM_of s) as [m|]; cbn [produces];
    rewrite !forward_eq; reflexivity.
Qed.

Lemma executeForwarding_on_stages s :
  exists d', executeForwarding s = on_stages (set_ID d') s /\
             id_instruction <$> d' = id_instruction <$> ID_of s.
Proof.
  unfold executeForwarding.
  destruct (ID_of s) as [d|] eqn:Ed.
  - destruct (EX_of s) as [ex|].
    + eexists (Some _). split; [reflexivity|]. cbn.
      destruct (MEM_of s); by rewrite ?forward_instruction.
    + exists (Some d). rewrite <- Ed. by rewrite on_stages_same_ID.
  - exists None. rewrite <- Ed. by rewrite on_stages_same_ID.
Qed.

(** X1. [executeForwarding] changes nothing in the engine but the two
    cached operand values of the ID slot (the instruction in ID stays), and
    running it twice gives the same state as running it once. *)
Theorem executeForwarding_frame_idempotent (s : MIPSPipeline) :
  (exists d', executeForwarding s = on_stages (set_ID d') s /\
              id_instruction <$> d' = id_instruction <$> ID_of s) /\
  executeForwarding (executeForwarding s) = executeForwarding s.
Proof.
  split; [apply executeForwarding_on_stages|].
  destruct (ID_of s) as [d|] eqn:Ed;
    [|by unfold executeForwarding at 1 2; rewrite Ed].
  destruct (EX_of s) as [ex|] eqn:Ee;
    [|by unfold executeForwarding at 1 2; rewrite Ed, Ee].
  pose proof (executeForwarding_ID s d ex Ed Ee) as H1.
  set (s1 := executeForwarding s) in *.
  assert (Hex1 : EX_of s1 = Some ex).
  { subst s1. unfold executeForwarding. by rewrite Ed, Ee. }
  assert (Hmem1 : MEM_of s1 = MEM_of s).
  { subst s1. unfold executeForwarding. by rewrite Ed, Ee. }
  assert (Hs1 : s1 = on_stages (set_ID (ID_of s1)) s).
  { subst s1. unfold executeForwarding. by rewrite Ed, Ee. }
  pose proof (executeForwarding_ID s1 _ ex H1 Hex1) as H2.
  cbn [id_instruction rsValue rtValue] in H2. rewrite Hmem1 in H2.
  assert (H12 : ID_of (executeForwarding s1) = ID_of s1).
  { rewrite H2, H1. do 2 f_equal; by repeat destruct (produces _ _). }
  destruct (executeForwarding_on_stages s1) as (d' & Hd' & _).
  assert (Hd : d' = ID_of s1).
  { rewrite <- H12, Hd'. reflexivity. }
  rewrite Hd', Hd. apply on_stages_same_ID.
Qed.

(** X2. What the forwarding unit delivers for an operand of the
    instruction in ID, when EX is occupied: the result held in MEM if MEM
    holds an R-type instruction writing that register; otherwise the result
    held in EX if EX holds such an instruction; otherwise the value read at
    decode. *)
Theorem executeForwarding_delivers (s : MIPSPipeline) (d : IDLatch) (ex : Latch) :
  ID_of s = Some d -> EX_of s = Some ex ->
  exists d', ID_of (executeForwarding s) = Some d' /\
    id_instruction d' = id_instruction d /\
    rsValue d' =
      (if produces (MEM_of s) (rs (id_instruction d))
       then default VUndef (result <$> MEM_of s)
       else if produces (Some ex) (rs (id_instruction d))
            then result ex else rsValue d) /\
    rtValue d' =
      (if produces (MEM_of s) (rt (id_instruction d))
       then default VUndef (result <$> MEM_of s)
       else if produces (Some ex) (rt (id_instruction d))
            then result ex else rtValue d).
Proof.
  intros Hid Hex. eexists. split; [by apply executeForwarding_ID|]. done.
Qed.

Lemma executeForwarding_delivers_witness :
  exists d', ID_of (executeForwarding forwarding_example) = Some d' /\
             rsValue d' = VNum 12 /\ rtValue d' = VNum 12.
Proof.
  assert (Hid : ID_of forwarding_example =
                Some (mkIDLatch
                        (mkInstruction R_TYPE "add" (Some 1) (Some 1) (Some 4)
                           None None None)
                        (VNum 0) (VNum 0))) by (vm_compute; reflexivity).
  assert (Hex : EX_of forwarding_example =
                Some (mkLatch
                        (mkInstruction R_TYPE "add" (Some 2) (Some 3) (Some 1)
                           None None None)
                        (VNum 12))) by (vm_compute; reflexivity).
  destruct (executeForwarding_delivers forwarding_example _ _ Hid Hex)
    as (d' & H1 & _ & H2 & H3).
  exists d'. split; [exact H1|].
  split; [rewrite H2 | rewrite H3]; vm_compute; reflexivity.
Defined.

Lemma executeForwarding_no_producer s ex :
  EX_of s = Some ex -> type (instruction ex) <> R_TYPE ->
  (forall mem, MEM_of s = Some mem -> type (instruction mem) <> R_TYPE) ->
  executeForwarding s = s.
Proof.
  intros Hex HR Hmem. unfold executeForwarding. rewrite Hex.
  destruct (ID_of s) as [d|] eqn:Ed; [|done].
  assert (Hfe : forward (instruction ex) (result ex) d = d).
  { unfold forward. by destruct (decide _). }
  rewrite Hfe. destruct (MEM_of s) as [m|].
  - assert (Hfm : forward (instruction m) (result m) d = d).
    { unfold forward. destruct (decide _) as [E|]; [|done].
      by destruct (Hmem m eq_refl). }
    rewrite Hfm, <- Ed. apply on_stages_same_ID.
  - rewrite <- Ed. apply on_stages_same_ID.
Qed.

(** X3. The forwarding unit does nothing when the EX slot is empty, even
    if MEM holds an instruction writing a register that ID reads; and it
    does nothing when neither EX nor MEM holds an R-type instruction, so
    that the result of a load is never forwarded. *)
Theorem executeForwarding_inactive (s : MIPSPipeline) :
  (EX_of s = None -> executeForwarding s = s) /\
  (forall ex, EX_of s = Some ex -> type (instruction ex) <> R_TYPE ->
     (forall mem, MEM_of s = Some mem -> type (instruction mem) <> R_TYPE) ->
     executeForwarding s = s).
Proof.
  split.
  - intros Hex. unfold executeForwarding. rewrite Hex. by destruct (ID_of s).
  - apply executeForwarding_no_producer.
Qed.

Lemma executeForwarding_inactive_witness :
  executeForwarding load_use_example = load_use_example.
Proof.
  assert (Hex : EX_of load_use_example =
                Some (mkLatch
                        (mkInstruction I_TYPE "lw" (Some 0) (Some 1) None
                           (Some 0) None None)
                        VUndef)) by (vm_compute; reflexivity).
  assert (Hmem : MEM_of load_use_example = None) by (vm_compute; reflexivity).
  destruct (executeForwarding_inactive load_use_example) as (_ & H).
  apply (H _ Hex).
  - discriminate.
  - intros mem Hm. rewrite Hmem in Hm. discriminate.
Defined.

(** ** One cycle: how the slots advance *)

Lemma executeWB_stages s :
  pipelineStages (executeWB s) =
  match MEM_of s with
  | Some m => set_MEM None (set_WB (Some m) (pipelineStages s))
  | None => pipelineStages s
  end.
Proof.
  unfold executeWB. destruct (MEM_of s) as [[i r]|]; [|done].
  cbn zeta. cbn [instruction result].
  destruct (decide _); [done|]. by destruct (String.eqb _ _).
Qed.

Lemma executeMEM_stages s :
  pipelineStages (executeMEM s) =
  match EX_of s with
  | Some e =>
      set_EX None
        (set_MEM (Some (mkLatch (instruction e) (mem_result s e)))
           (pipelineStages s))
  | None => pipelineStages s
  end.
Proof.
  unfold executeMEM, mem_result. destruct (EX_of s) as [e|]; [|done].
  cbn zeta. destruct (String.eqb _ Opcode.LW); [done|].
  by destruct (String.eqb _ Opcode.SW).
Qed.

Lemma executeEX_stages s :
  pipelineStages (executeEX s) =
  match ID_of s with
  | Some d =>
      set_ID None
        (set_EX (Some (mkLatch (id_instruction d) (ex_result d)))
           (pipelineStages s))
  | None => pipelineStages s
  end.
Proof. unfold executeEX. by destruct (ID_of s). Qed.

Lemma executeID_control_slots i s :
  ID_of (executeID_control i s) = ID_of s /\
  EX_of (executeID_control i s) = EX_of s /\
  MEM_of (executeID_control i s) = MEM_of s /\
  WB_of (executeID_control i s) = WB_of s /\
  registradores (executeID_control i s) = registradores s /\
  memoria (executeID_control i s) = memoria s /\
  stalled (executeID_control i s) = stalled s /\
  cycle (executeID_control i s) = cycle s /\
  instructionCache (executeID_control i s) = instructionCache s.
Proof.
  unfold executeID_control.
  repeat (destruct (String.eqb _ _); cbn [orb]); try done.
  by destruct (strict_eq _ _).
Qed.

Lemma executeID_stages s :
  pipelineStages (executeID s) =
  match IF_of s with
  | Some i => set_IF None (set_ID (Some (decoded s i)) (pipelineStages s))
  | None => pipelineStages s
  end.
Proof.
  unfold executeID. destruct (IF_of s) as [i|]; [|done].
  destruct (executeID_control_slots i s) as (H1 & H2 & H3 & H4 & H5 & _).
  unfold executeID_latch, decoded, reg. rewrite H5.
  unfold ID_of, EX_of, MEM_of, WB_of in *.
  unfold on_stages, set_IF, set_ID.
  cbn [pipelineStages with_stages stIF stID stEX stMEM stWB].
  by rewrite H2, H3, H4.
Qed.

Lemma executeIF_stages s :
  pipelineStages (executeIF s) =
  if stalled s then pipelineStages s
  else match fetchInstruction s (PC s) with
       | Some i => set_IF (Some i) (pipelineStages s)
       | None => pipelineStages s
       end.
Proof.
  unfold executeIF. destruct (stalled s); [done|]. cbn [negb].
  by destruct (fetchInstruction _ _).
Qed.

(** The hazard detector looks at instructions only, which forwarding leaves
    alone. *)
Lemma detectHazards_executeForwarding s :
  detectHazards (executeForwarding s) = detectHazards s.
Proof.
  destruct (executeForwarding_on_stages s) as (d' & -> & Hd').
  unfold detectHazards, detectStructuralHazard, detectDataHazard,
    detectControlHazard, ID_of, EX_of, MEM_of, IF_of, on_stages, set_ID.
  cbn [pipelineStages with_stages stIF stID stEX stMEM stWB].
  fold (ID_of s) in *.
  destruct d' as [d'|], (ID_of s) as [d|]; try discriminate; [|done].
  injection Hd' as ->. reflexivity.
Qed.

Lemma executeID_frame s :
  registradores (executeID s) = registradores s /\
  memoria (executeID s) = memoria s /\
  stalled (executeID s) = stalled s /\
  cycle (executeID s) = cycle s /\
  instructionCache (executeID s) = instructionCache s.
Proof.
  unfold executeID. destruct (IF_of s) as [i|]; [|done].
  destruct (executeID_control_slots i s) as (_ & _ & _ & _ & H).
  exact H.
Qed.

(** The state on which the decode stage runs, slot by slot. *)
Lemma before_decode_stages s :
  exists s2 d0,
    id_instruction <$> d0 = id_instruction <$> ID_of s /\
    ID_of (executeForwarding s) = d0 /\
    registradores s2 = registradores (executeWB s) /\
    memoria s2 = memoria s /\
    pipelineStages (before_decode s) =
    mkStages (IF_of s) None
      ((fun d => mkLatch (id_instruction d) (ex_result d)) <$> d0)
      ((fun e => mkLatch (instruction e) (mem_result s2 e)) <$> EX_of s)
      (match MEM_of s with Some m => Some m | None => WB_of s end).
Proof.
  unfold before_decode. cbn zeta.
  destruct (executeForwarding_on_stages s) as (d' & E & Hd').
  set (s1 := with_stalled _ _).
  exists (executeWB s1), d'. split; [exact Hd'|].
  split; [by rewrite E|].
  assert (P1 : pipelineStages s1 = set_ID d' (pipelineStages s)).
  { subst s1. by rewrite E. }
  assert (R1 : registradores s1 = registradores s /\ memoria s1 = memoria s).
  { subst s1. by rewrite E. }
  split.
  { unfold executeWB, MEM_of. rewrite P1. cbn [set_ID stMEM].
    destruct (stMEM (pipelineStages s)); [|apply R1].
    cbn zeta. rewrite (proj1 R1).
    destruct (decide _); [done|].
    destruct (String.eqb _ _); [done | apply R1]. }
  split.
  { unfold executeWB. destruct (MEM_of s1); [|apply R1].
    cbn zeta.
    destruct (decide _); [apply R1|].
    destruct (String.eqb _ _); apply R1. }
  rewrite executeEX_stages. unfold ID_of.
  rewrite executeMEM_stages. unfold EX_of.
  rewrite executeWB_stages. unfold MEM_of. rewrite P1.
  unfold IF_of, WB_of.
  destruct (pipelineStages s) as [i d e m w].
  cbn [set_ID stIF stID stEX stMEM stWB].
  destruct m as [m|]; cbn [set_MEM set_WB stIF stID stEX stMEM stWB];
    destruct e as [e|]; cbn [set_MEM set_EX stIF stID stEX stMEM stWB fmap option_fmap option_map];
    destruct d' as [d'|]; reflexivity.
Qed.

Lemma before_decode_stalled s :
  stalled (before_decode s) = detectHazards s.
Proof.
  unfold before_decode. cbn zeta.
  set (s1 := with_stalled _ _).
  destruct (executeWB_frame s1) as (_ & _ & _ & B).
  destruct (executeMEM_frame (executeWB s1)) as (_ & _ & _ & C).
  destruct (executeEX_frame (executeMEM (executeWB s1))) as (_ & _ & _ & D).
  rewrite D, C, B. subst s1. cbn [stalled with_stalled].
  apply detectHazards_executeForwarding.
Qed.

Lemma executeWB_memoria s : memoria (executeWB s) = memoria s.
Proof.
  unfold executeWB. destruct (MEM_of s); [|done].
  cbn zeta. destruct (decide _); [done|]. by destruct (String.eqb _ _).
Qed.

Lemma executeMEM_registradores s : registradores (executeMEM s) = registradores s.
Proof.
  unfold executeMEM. destruct (EX_of s); [|done].
  cbn zeta. by repeat destruct (String.eqb _ _).
Qed.

Lemma executeEX_stores s :
  registradores (executeEX s) = registradores s /\
  memoria (executeEX s) = memoria s.
Proof. unfold executeEX. by destruct (ID_of s). Qed.

Lemma executeIF_stores s :
  registradores (executeIF s) = registradores s /\
  memoria (executeIF s) = memoria s.
Proof.
  unfold executeIF. destruct (negb _); [|done].
  by destruct (fetchInstruction _ _).
Qed.

(** The registers after a cycle are those write-back alone leaves. *)
Lemma executeCycle_registradores s :
  registradores (executeCycle s) = registradores (executeWB s).
Proof.
  rewrite executeCycle_unfold. cbn zeta. cbn [registradores with_cycle].
  rewrite (proj1 (executeIF_stores _)), (proj1 (executeID_frame _)).
  unfold before_decode. cbn zeta.
  rewrite (proj1 (executeEX_stores _)), executeMEM_registradores.
  destruct (executeForwarding_on_stages s) as (d' & E & _).
  rewrite E. unfold executeWB, MEM_of, on_stages, set_ID.
  cbn [pipelineStages with_stages with_stalled stMEM registradores].
  destruct (stMEM (pipelineStages s)); [|done].
  cbn zeta. destruct (decide _); [done|]. by destruct (String.eqb _ _).
Qed.

(** The memory after a cycle is that write-back and the memory stage
    leave. *)
Lemma executeCycle_memoria s :
  memoria (executeCycle s) = memoria (executeMEM (executeWB s)).
Proof.
  rewrite executeCycle_unfold. cbn zeta. cbn [memoria with_cycle].
  rewrite (proj2 (executeIF_stores _)).
  rewrite (proj1 (proj2 (executeID_frame _))).
  unfold before_decode. cbn zeta. rewrite (proj2 (executeEX_stores _)).
  destruct (executeForwarding_on_stages s) as (d' & E & _).
  rewrite E.
  set (a := executeWB _). set (b := executeWB s).
  assert (Hab : registradores a = registradores b /\ memoria a = memoria b /\
                EX_of a = EX_of b).
  { subst a b. unfold executeWB, MEM_of, EX_of, on_stages, set_ID.
    cbn [pipelineStages with_stages with_stalled stMEM stEX registradores memoria].
    destruct (stMEM (pipelineStages s)); [|done].
    cbn zeta. destruct (decide _); [done|]. by destruct (String.eqb _ _). }
  destruct Hab as (A1 & A2 & A3).
  unfold executeMEM. rewrite A3. destruct (EX_of b); [|exact A2].
  cbn zeta. unfold reg. rewrite A1, A2.
  destruct (String.eqb _ Opcode.LW); [exact A2|].
  by destruct (String.eqb _ Opcode.SW).
Qed.

Lemma executeCycle_instructionCache s :
  instructionCache (executeCycle s) = instructionCache s.
Proof.
  rewrite executeCycle_unfold. cbn zeta. cbn [instructionCache with_cycle].
  rewrite executeIF_instructionCache.
  rewrite (proj2 (proj2 (proj2 (proj2 (executeID_frame _))))).
  apply before_decode_frame.
Qed.

Lemma before_decode_registradores s :
  registradores (before_decode s) = registradores (executeWB s).
Proof.
  rewrite <- executeCycle_registradores, executeCycle_unfold. cbn zeta.
  cbn [registradores with_cycle].
  by rewrite (proj1 (executeIF_stores _)), (proj1 (executeID_frame _)).
Qed.

(** The five slots after a cycle, in terms of the engine before it: decode
    reads the registers write-back leaves, execute computes from the
    forwarded operands, and the memory stage reads registers after
    write-back. *)
Lemma executeCycle_stages s :
  pipelineStages (executeCycle s) =
  mkStages
    (if detectHazards s then None
     else fetchInstruction s (PC (executeCycle s)))
    (decoded (executeWB s) <$> IF_of s)
    ((fun d => mkLatch (id_instruction d) (ex_result d))
       <$> ID_of (executeForwarding s))
    ((fun e => mkLatch (instruction e) (mem_result (executeWB s) e)) <$> EX_of s)
    (match MEM_of s with Some m => Some m | None => WB_of s end).
Proof.
  rewrite executeCycle_unfold. cbn zeta.
  destruct (before_decode_stages s) as (s2 & d0 & Hd0 & Hf & R2 & M2 & P4).
  destruct (before_decode_frame s) as (_ & F2 & _).
  pose proof (before_decode_stalled s) as Hst.
  pose proof (before_decode_registradores s) as Hregs.
  set (s4 := before_decode s) in *.
  assert (Hdec : forall i, decoded s4 i = decoded (executeWB s) i).
  { intros i. unfold decoded, reg. by rewrite Hregs. }
  assert (Hmem : forall e, mem_result s2 e = mem_result (executeWB s) e).
  { intros e. unfold mem_result, reg. by rewrite R2, M2, executeWB_memoria. }
  assert (P5 : pipelineStages (executeID s4) =
               mkStages None (decoded (executeWB s) <$> IF_of s)
                 (stEX (pipelineStages s4)) (stMEM (pipelineStages s4))
                 (stWB (pipelineStages s4))).
  { rewrite executeID_stages. unfold IF_of at 1. rewrite P4. cbn [stIF].
    destruct (IF_of s); [|done]. cbn. by rewrite Hdec. }
  destruct (executeID_frame s4) as (_ & _ & G3 & _ & G5).
  assert (Hfetch : fetchInstruction (executeID s4) (PC (executeID s4)) =
                   fetchInstruction s (PC (executeID s4))).
  { unfold fetchInstruction. by rewrite G5, F2. }
  cbn [pipelineStages with_cycle PC].
  rewrite executeIF_PC, executeIF_stages, G3, Hst, Hfetch, P5, P4.
  cbn [stEX stMEM stWB]. rewrite Hf.
  assert (E : (fun e => mkLatch (instruction e) (mem_result s2 e)) <$> EX_of s =
              (fun e => mkLatch (instruction e) (mem_result (executeWB s) e))
                <$> EX_of s).
  { destruct (EX_of s); [|done]. cbn. by rewrite Hmem. }
  rewrite E.
  destruct (detectHazards s); [done|].
  by destruct (fetchInstruction s _).
Qed.

(** The five slots after a cycle, instruction by instruction. *)
Lemma executeCycle_slots s :
  WB_of (executeCycle s) =
    (match MEM_of s with Some m => Some m | None => WB_of s end) /\
  instruction <$> MEM_of (executeCycle s) = instruction <$> EX_of s /\
  instruction <$> EX_of (executeCycle s) = id_instruction <$> ID_of s /\
  id_instruction <$> ID_of (executeCycle s) = IF_of s /\
  IF_of (executeCycle s) =
    (if detectHazards s then None
     else fetchInstruction s (PC (executeCycle s))).
Proof.
  pose proof (executeCycle_stages s) as P.
  destruct (executeForwarding_on_stages s) as (d' & E & Hd').
  split; [unfold WB_of at 1; by rewrite P|].
  split; [unfold MEM_of at 1; rewrite P; cbn [stMEM]; by destruct (EX_of s)|].
  split; [|split].
  - unfold EX_of at 1. rewrite P. cbn [stEX].
    rewrite <- Hd'. unfold ID_of at 1. rewrite E.
    cbn [pipelineStages on_stages with_stages set_ID stID]. by destruct d'.
  - unfold ID_of at 1. rewrite P. cbn [stID]. by destruct (IF_of s).
  - unfold IF_of at 1. by rewrite P.
Qed.

(** X4. One cycle moves every payload one slot forward and leaves none
    behind: WB receives the payload of MEM (and keeps its old content when
    MEM was empty); MEM, EX and ID receive the instruction that was in EX,
    ID and IF and are empty when that slot was empty; IF is empty when a
    hazard was detected and otherwise holds whatever is stored at the new
    PC. *)
Theorem executeCycle_advances (s : MIPSPipeline) :
  let s' := executeCycle s in
  WB_of s' = (match MEM_of s with Some m => Some m | None => WB_of s end) /\
  instruction <$> MEM_of s' = instruction <$> EX_of s /\
  instruction <$> EX_of s' = id_instruction <$> ID_of s /\
  id_instruction <$> ID_of s' = IF_of s /\
  IF_of s' = (if detectHazards s then None else fetchInstruction s (PC s')).
Proof. exact (executeCycle_slots s). Qed.

(** X5. Within a cycle the registers are written by write-back only and the
    memory by the memory stage only, which runs after write-back and so
    reads the registers already written back: the registers after a cycle
    are those after [executeWB] alone, the memory is that after [executeWB]
    then [executeMEM]; with MEM empty the register file is unchanged, and
    with no [sw] in EX the memory is unchanged. *)
Theorem executeCycle_writes (s : MIPSPipeline) :
  registradores (executeCycle s) = registradores (executeWB s) /\
  memoria (executeCycle s) = memoria (executeMEM (executeWB s)) /\
  (MEM_of s = None -> registradores (executeCycle s) = registradores s) /\
  ((forall e, EX_of s = Some e -> opcode (instruction e) <> "sw") ->
   memoria (executeCycle s) = memoria s).
Proof.
  split; [apply executeCycle_registradores|].
  split; [apply executeCycle_memoria|]. split.
  - intros H. rewrite executeCycle_registradores. unfold executeWB. by rewrite H.
  - intros H. rewrite executeCycle_memoria.
    assert (Hex : EX_of (executeWB s) = EX_of s).
    { unfold executeWB, EX_of. destruct (MEM_of s); [|done].
      cbn zeta. destruct (decide _); [done|]. by destruct (String.eqb _ _). }
    unfold executeMEM. rewrite Hex.
    destruct (EX_of s) as [e|]; [|apply executeWB_memoria].
    cbn zeta. destruct (String.eqb _ Opcode.LW); [apply executeWB_memoria|].
    destruct (String.eqb (opcode (instruction e)) Opcode.SW) eqn:Esw;
      [|apply executeWB_memoria].
    apply eqb_true_iff in Esw. by destruct (H e eq_refl).
Qed.

Lemma executeCycle_run_state s :
  isRunning (executeCycle s) = isRunning s /\
  runInterval (executeCycle s) = runInterval s /\
  runSpeed (executeCycle s) = runSpeed s.
Proof.
  assert (HF : forall s0, isRunning (executeForwarding s0) = isRunning s0 /\
                          runInterval (executeForwarding s0) = runInterval s0 /\
                          runSpeed (executeForwarding s0) = runSpeed s0).
  { intros s0. unfold executeForwarding. by destruct (ID_of s0), (EX_of s0). }
  assert (HWB : forall s0, isRunning (executeWB s0) = isRunning s0 /\
                           runInterval (executeWB s0) = runInterval s0 /\
                           runSpeed (executeWB s0) = runSpeed s0).
  { intros s0. unfold executeWB. destruct (MEM_of s0); [|done].
    cbn zeta. destruct (decide _); [done|]. by destruct (String.eqb _ _). }
  assert (HMEM : forall s0, isRunning (executeMEM s0) = isRunning s0 /\
                            runInterval (executeMEM s0) = runInterval s0 /\
                            runSpeed (executeMEM s0) = runSpeed s0).
  { intros s0. unfold executeMEM. destruct (EX_of s0); [|done].
    cbn zeta. by repeat destruct (String.eqb _ _). }
  assert (HEX : forall s0, isRunning (executeEX s0) = isRunning s0 /\
                           runInterval (executeEX s0) = runInterval s0 /\
                           runSpeed (executeEX s0) = runSpeed s0).
  { intros s0. unfold executeEX. by destruct (ID_of s0). }
  assert (HID : forall s0, isRunning (executeID s0) = isRunning s0 /\
                           runInterval (executeID s0) = runInterval s0 /\
                           runSpeed (executeID s0) = runSpeed s0).
  { intros s0. unfold executeID. destruct (IF_of s0) as [j|]; [|done].
    unfold executeID_latch, executeID_control.
    repeat (destruct (String.eqb _ _); cbn [orb]); try done.
    by destruct (strict_eq _ _). }
  assert (HIF : forall s0, isRunning (executeIF s0) = isRunning s0 /\
                           runInterval (executeIF s0) = runInterval s0 /\
                           runSpeed (executeIF s0) = runSpeed s0).
  { intros s0. unfold executeIF. destruct (negb _); [|done].
    by destruct (fetchInstruction _ _). }
  unfold executeCycle. cbn zeta.
  cbn [isRunning runInterval runSpeed with_cycle].
  set (s1 := with_stalled _ _).
  destruct (HIF (executeID (executeEX (executeMEM (executeWB s1))))) as (A1 & A2 & A3).
  destruct (HID (executeEX (executeMEM (executeWB s1)))) as (B1 & B2 & B3).
  destruct (HEX (executeMEM (executeWB s1))) as (C1 & C2 & C3).
  destruct (HMEM (executeWB s1)) as (D1 & D2 & D3).
  destruct (HWB s1) as (E1 & E2 & E3).
  destruct (HF s) as (F1 & F2 & F3).
  rewrite A1, A2, A3, B1, B2, B3, C1, C2, C3, D1, D2, D3, E1, E2, E3.
  subst s1. cbn [isRunning runInterval runSpeed with_stalled]. done.
Qed.

Lemma executeCycle_stalled s : stalled (executeCycle s) = detectHazards s.
Proof.
  rewrite executeCycle_unfold. cbn zeta. cbn [stalled with_cycle].
  assert (HIF : forall s0, stalled (executeIF s0) = stalled s0).
  { intros s0. unfold executeIF. destruct (negb _); [|done].
    by destruct (fetchInstruction _ _). }
  rewrite HIF, (proj1 (proj2 (proj2 (executeID_frame _)))).
  apply before_decode_stalled.
Qed.

(** X6. Book-keeping of a cycle: the cycle count grows by exactly one, the
    stall flag becomes the answer of the hazard detector on the state the
    cycle started from (forwarding does not change that answer), and the
    instruction store, the predictor table and the run state are left
    alone. *)
Theorem executeCycle_bookkeeping (s : MIPSPipeline) :
  cycle (executeCycle s) = cycle s + 1 /\
  stalled (executeCycle s) = detectHazards s /\
  detectHazards (executeForwarding s) = detectHazards s /\
  instructionCache (executeCycle s) = instructionCache s /\
  branchPredictor (executeCycle s) = branchPredictor s /\
  isRunning (executeCycle s) = isRunning s /\
  runSpeed (executeCycle s) = runSpeed s.
Proof.
  split; [|split; [|split; [|split; [|split]]]].
  - rewrite executeCycle_unfold. cbn zeta. cbn [cycle with_cycle]. f_equal.
    assert (HIF : forall s0, cycle (executeIF s0) = cycle s0).
    { intros s0. unfold executeIF. destruct (negb _); [|done].
      by destruct (fetchInstruction _ _). }
    rewrite HIF, (proj1 (proj2 (proj2 (proj2 (executeID_frame _))))).
    unfold before_decode. cbn zeta.
    assert (HEX : forall s0, cycle (executeEX s0) = cycle s0).
    { intros s0. unfold executeEX. by destruct (ID_of s0). }
    assert (HMEM : forall s0, cycle (executeMEM s0) = cycle s0).
    { intros s0. unfold executeMEM. destruct (EX_of s0); [|done].
      cbn zeta. by repeat destruct (String.eqb _ _). }
    assert (HWB : forall s0, cycle (executeWB s0) = cycle s0).
    { intros s0. unfold executeWB. destruct (MEM_of s0); [|done].
      cbn zeta. destruct (decide _); [done|]. by destruct (String.eqb _ _). }
    rewrite HEX, HMEM, HWB. cbn [cycle with_stalled].
    destruct (executeForwarding_on_stages s) as (d' & -> & _). done.
  - apply executeCycle_stalled.
  - apply detectHazards_executeForwarding.
  - apply executeCycle_instructionCache.
  - apply executeCycle_branchPredictor.
  - destruct (executeCycle_run_state s) as (H1 & _ & H3). by split.
Qed.

Lemma executeCycle_writes_witness :
  registradores (executeCycle load_use_example) = registradores load_use_example /\
  memoria (executeCycle load_use_example) = memoria load_use_example.
Proof.
  assert (Hmem : MEM_of load_use_example = None) by (vm_compute; reflexivity).
  assert (Hex : EX_of load_use_example =
                Some (mkLatch
                        (mkInstruction I_TYPE "lw" (Some 0) (Some 1) None
                           (Some 0) None None)
                        VUndef)) by (vm_compute; reflexivity).
  destruct (executeCycle_writes load_use_example) as (_ & _ & H1 & H2).
  split; [exact (H1 Hmem)|].
  apply H2. intros e He. rewrite Hex in He. injection He as <-. discriminate.
Defined.

(** ** Memory stage *)

Lemma zeros_lookup_from (a n : nat) (k : key) :
  (list_to_map (map (fun i => (KInt (Z.of_nat i), VNum 0)) (seq a n))
     : gmap key value) !! k =
  match k with
  | KInt i => if (Z.of_nat a <=? i) && (i <? Z.of_nat (a + n))
              then Some (VNum 0) else None
  | _ => None
  end.
Proof.
  revert a. induction n as [|n IH]; intros a.
  - change (seq a 0) with (@nil nat). change (map _ []) with (@nil (key * value)).
    change (list_to_map []) with (∅ : gmap key value). rewrite lookup_empty.
    destruct k as [i| | |]; try reflexivity.
    destruct (Z.leb_spec (Z.of_nat a) i), (Z.ltb_spec i (Z.of_nat (a + 0)));
      cbn [andb]; try reflexivity; lia.
  - change (seq a (S n)) with (a :: seq (S a) n).
    change (map ?f (a :: ?l)) with (f a :: map f l).
    cbv beta. rewrite list_to_map_cons.
    destruct (decide (KInt (Z.of_nat a) = k)) as [<-|Hne].
    + rewrite lookup_insert_eq.
      destruct (Z.leb_spec (Z.of_nat a) (Z.of_nat a)),
        (Z.ltb_spec (Z.of_nat a) (Z.of_nat (a + S n)));
        cbn [andb]; try reflexivity; lia.
    + rewrite lookup_insert_ne by done. rewrite IH.
      destruct k as [i| | |]; try reflexivity.
      assert (i <> Z.of_nat a) by congruence.
      destruct (Z.leb_spec (Z.of_nat (S a)) i), (Z.ltb_spec i (Z.of_nat (S a + n))),
        (Z.leb_spec (Z.of_nat a) i), (Z.ltb_spec i (Z.of_nat (a + S n)));
        cbn [andb]; try reflexivity; lia.
Qed.

Lemma zeros_lookup (n : nat) (k : key) :
  zeros n !! k =
  match k with
  | KInt i => if (0 <=? i) && (i <? Z.of_nat n) then Some (VNum 0) else None
  | _ => None
  end.
Proof. unfold zeros. by rewrite zeros_lookup_from. Qed.

Lemma executeMEM_sw s e :
  EX_of s = Some e -> opcode (instruction e) = "sw" ->
  memoria (executeMEM s) =
  <[div4_key (add (reg s (rs (instruction e))) (of_field (offset (instruction e))))
    := reg s (rt (instruction e))]> (memoria s).
Proof.
  intros He Hop. unfold executeMEM. rewrite He. cbn zeta.
  unfold Opcode.LW, Opcode.SW. rewrite Hop. reflexivity.
Qed.

Lemma executeMEM_lw s e :
  EX_of s = Some e -> opcode (instruction e) = "lw" ->
  MEM_of (executeMEM s) =
  Some (mkLatch (instruction e)
          (get (memoria s)
             (div4_key (add (reg s (rs (instruction e)))
                            (of_field (offset (instruction e))))))) /\
  memoria (executeMEM s) = memoria s.
Proof.
  intros He Hop. unfold executeMEM. rewrite He. cbn zeta.
  unfold Opcode.LW, Opcode.SW. rewrite Hop. done.
Qed.

(** X7. Store then load: once the memory stage has run a [sw], a [lw]
    whose address computes to the same value reads back the register value
    that was stored, whatever the address is (aligned or not, inside the
    1024 words or not, even NaN), and the load leaves the memory as it
    is; the store changes no other cell. *)
Theorem store_then_load (s s' : MIPSPipeline) (e e' : Latch) :
  EX_of s = Some e -> opcode (instruction e) = "sw" ->
  EX_of s' = Some e' -> opcode (instruction e') = "lw" ->
  memoria s' = memoria (executeMEM s) ->
  add (reg s' (rs (instruction e'))) (of_field (offset (instruction e'))) =
  add (reg s (rs (instruction e))) (of_field (offset (instruction e))) ->
  result <$> MEM_of (executeMEM s') = Some (reg s (rt (instruction e))) /\
  memoria (executeMEM s') = memoria s' /\
  forall k,
    k <> div4_key (add (reg s (rs (instruction e)))
                       (of_field (offset (instruction e)))) ->
    memoria (executeMEM s) !! k = memoria s !! k.
Proof.
  intros He Hop He' Hop' Hmem Haddr.
  destruct (executeMEM_lw s' e' He' Hop') as (H1 & H2).
  pose proof (executeMEM_sw s e He Hop) as H3.
  split; [|split; [exact H2|]].
  - rewrite H1. cbn. f_equal. rewrite Hmem, H3, Haddr.
    unfold get. by rewrite lookup_insert_eq.
  - intros k Hk. rewrite H3. by apply lookup_insert_ne.
Qed.

Lemma memoria_on_stages f s : memoria (on_stages f s) = memoria s.
Proof. reflexivity. Qed.

Lemma store_then_load_witness :
  result <$> MEM_of (executeMEM load_back_example) = Some (VNum 42).
Proof.
  assert (He : EX_of store_example =
               Some (mkLatch
                       (mkInstruction I_TYPE "sw" (Some 0) (Some 1) None
                          (Some 8000) None None)
                       VUndef)) by (vm_compute; reflexivity).
  assert (He' : EX_of load_back_example =
                Some (mkLatch
                        (mkInstruction I_TYPE "lw" (Some 0) (Some 2) None
                           (Some 8000) None None)
                        VUndef)) by (vm_compute; reflexivity).
  assert (Hm : memoria load_back_example = memoria (executeMEM store_example))
    by exact (memoria_on_stages _ _).
  assert (Ha : add (reg load_back_example (Some 0)) (of_field (Some 8000)) =
               add (reg store_example (Some 0)) (of_field (Some 8000)))
    by (vm_compute; reflexivity).
  destruct (store_then_load store_example load_back_example _ _
              He eq_refl He' eq_refl Hm Ha) as (H & _).
  rewrite H. vm_compute. reflexivity.
Defined.

(** X8. On the memory and the registers of a fresh or reset engine, a word
    address reads 0 when it is a multiple of 4 between 0 and 4092 and
    undefined otherwise (unaligned, negative or beyond the array: no
    error), and register [n] reads 0 for n between 0 and 31 and undefined
    otherwise. *)
Theorem fresh_memory_and_registers (s : MIPSPipeline) (a n : Z) :
  get (memoria (reset s)) (div4_key (VNum a)) =
    (if (a mod 4 =? 0) && (0 <=? a) && (a <? 4096) then VNum 0 else VUndef) /\
  reg (reset s) (Some n) =
    (if (0 <=? n) && (n <? 32) then VNum 0 else VUndef) /\
  reg (reset s) None = VUndef /\
  memoria (reset s) = memoria constructor /\
  registradores (reset s) = registradores constructor.
Proof.
  split; [|split; [|split; [|split]]]; try reflexivity.
  - unfold reset. cbn [memoria]. unfold get, div4_key. cbn [to_number].
    destruct (Z.eqb_spec (a mod 4) 0) as [Hm|Hm]; cbn [andb].
    + rewrite zeros_lookup.
      destruct (Z.leb_spec 0 (a / 4)), (Z.ltb_spec (a / 4) (Z.of_nat 1024)),
        (Z.leb_spec 0 a), (Z.ltb_spec a 4096); cbn [andb from_option];
        try reflexivity; exfalso;
        pose proof (Z.div_mod a 4 ltac:(lia)); lia.
    + by rewrite zeros_lookup.
  - unfold reset, reg. cbn [registradores field_key]. unfold get.
    rewrite zeros_lookup.
    by destruct (Z.leb_spec 0 n), (Z.ltb_spec n (Z.of_nat 32)), (Z.ltb_spec n 32);
      cbn [andb from_option]; try reflexivity; lia.
Qed.

(** ** Execute stage *)

Lemma executeEX_result s d :
  ID_of s = Some d ->
  EX_of (executeEX s) = Some (mkLatch (id_instruction d) (ex_result d)) /\
  ID_of (executeEX s) = None.
Proof. intros H. unfold executeEX, ex_result. by rewrite H. Qed.



(** X10. Letter case: the loader accepts the opcode of an R-type
    instruction in any letter case and stores it as written, but the
    execute stage compares opcodes exactly; so for every loaded R-type
    instruction whose opcode is not spelled [add], [sub] or [mul] in lower
    case, the execute stage produces undefined, and write-back then stores
    undefined in rd. *)
Theorem executeEX_capitals (line : string) (labels : gmap string Z)
  (i : Instruction) (s : MIPSPipeline) (d : IDLatch) :
  parseInstruction line labels = Some i -> type i = R_TYPE ->
  opcode i <> "add" -> opcode i <> "sub" -> opcode i <> "mul" ->
  ID_of s = Some d -> id_instruction d = i ->
  EX_of (executeEX s) = Some (mkLatch i VUndef) /\
  forall s', MEM_of s' = Some (mkLatch i VUndef) ->
    reg (executeWB s') (rd i) = VUndef.
Proof.
  intros Hparse HR Hadd Hsub Hmul Hd Hi.
  pose proof (parseInstruction_shape _ _ _ Hparse) as Hshape.
  split.
  - rewrite (proj1 (executeEX_result s d Hd)), Hi. f_equal. f_equal.
    unfold ex_result. rewrite Hi.
    unfold Opcode.ADD, Opcode.SUB, Opcode.MUL, Opcode.BEQ.
    apply String.eqb_neq in Hadd, Hsub, Hmul. rewrite Hadd, Hsub, Hmul.
    destruct (String.eqb (opcode i) "beq") eqn:Eb; [|done].
    apply eqb_true_iff in Eb. unfold parsed_shape in Hshape.
    rewrite HR, Eb in Hshape. destruct Hshape as [[H|[H|H]] _]; discriminate H.
  - intros s' Hm. unfold executeWB. rewrite Hm. cbn zeta.
    cbn [instruction result]. destruct (decide _); [|contradiction].
    unfold reg. cbn [registradores on_stages with_stages with_registradores].
    unfold get. by rewrite lookup_insert_eq.
Qed.

Lemma executeEX_capitals_witness :
  EX_of (executeEX capitals_example) =
  Some (mkLatch
          (mkInstruction R_TYPE "ADD" (Some 2) (Some 3) (Some 1) None None None)
          VUndef).
Proof.
  assert (Hid : ID_of capitals_example =
                Some (mkIDLatch
                        (mkInstruction R_TYPE "ADD" (Some 2) (Some 3) (Some 1)
                           None None None)
                        (VNum 1) (VNum 2))) by (vm_compute; reflexivity).
  assert (Hparse : parseInstruction "ADD $s1, $s2, $s3" ∅ =
                   Some (mkInstruction R_TYPE "ADD" (Some 2) (Some 3) (Some 1)
                           None None None)) by (vm_compute; reflexivity).
  refine (proj1 (executeEX_capitals _ _ _ capitals_example _ Hparse eq_refl
                   _ _ _ Hid eq_refl)); discriminate.
Defined.

(** ** Decode stage: ordinary instructions *)

(** X11. For every opcode other than exactly [beq] and [j] the decode
    stage advances PC by 4, latches the instruction with its two register
    values (falsy values read as 0) into ID and empties IF.  This includes
    a loaded jump whose opcode is spelled [J]: it is of type J but is never
    taken. *)
Theorem executeID_ordinary (s : MIPSPipeline) (i : Instruction) :
  IF_of s = Some i -> opcode i <> "beq" -> opcode i <> "j" ->
  PC (executeID s) = add (PC s) (VNum 4) /\
  ID_of (executeID s) = Some (decoded s i) /\
  IF_of (executeID s) = None /\
  (forall p : Z, PC s = VNum p -> PC (executeID s) = VNum (p + 4)) /\
  (forall line labels, parseInstruction line labels = Some i ->
     type i = J_TYPE -> opcode i = "J").
Proof.
  intros Hif Hbeq Hj.
  assert (HPC : PC (executeID s) = add (PC s) (VNum 4)).
  { unfold executeID. rewrite Hif.
    unfold executeID_control, Opcode.BEQ, Opcode.J.
    apply String.eqb_neq in Hbeq, Hj. by rewrite Hbeq, Hj. }
  split; [exact HPC|]. split; [|split; [|split]].
  - unfold ID_of. rewrite executeID_stages, Hif. reflexivity.
  - unfold IF_of at 1. rewrite executeID_stages, Hif. reflexivity.
  - intros p Hp. by rewrite HPC, Hp.
  - intros line labels Hparse HJ.
    pose proof (parseInstruction_shape _ _ _ Hparse) as Hshape.
    unfold parsed_shape in Hshape. rewrite HJ in Hshape.
    destruct Hshape as [Hlow _].
    destruct (opcode i) as [|c [|c' r]]; try discriminate.
    cbn [toLowerCase] in Hlow. injection Hlow as Hc.
    destruct c as [[] [] [] [] [] [] [] []]; try discriminate Hc; try reflexivity.
    by destruct Hj.
Qed.

Lemma executeID_ordinary_witness :
  PC (executeID capital_jump_example) = VNum 4.
Proof.
  assert (Hif : IF_of capital_jump_example =
                Some (mkInstruction J_TYPE "J" None None None None (Some 5) None))
    by (vm_compute; reflexivity).
  destruct (executeID_ordinary capital_jump_example _ Hif) as (_ & _ & _ & H & _);
    try discriminate.
  apply (H 0). vm_compute. reflexivity.
Defined.

(** ** Loader: where each instruction goes *)

Lemma instruction_lines_cons l lines :
  instruction_lines (l :: lines) =
  (if holdsInstruction l then 1 else 0) + instruction_lines lines.
Proof.
  unfold instruction_lines. rewrite filter_cons.
  destruct (decide (holdsInstruction l = true)) as [H|H].
  - rewrite H. cbn [length]. lia.
  - apply not_true_is_false in H. rewrite H. lia.
Qed.

Lemma instruction_lines_app l1 l2 :
  instruction_lines (l1 ++ l2) = instruction_lines l1 + instruction_lines l2.
Proof.
  unfold instruction_lines. rewrite filter_app, length_app. lia.
Qed.

Lemma secondPass_placement labels lines address cache (a : Z) (i : Instruction) :
  (forall k, address <= k -> cache !! k = None) ->
  snd (secondPass labels lines (address, cache)) !! a = Some i <->
  cache !! a = Some i \/
  exists before line,
    accepted_at labels lines before line i /\
    a = address + 4 * instruction_lines before.
Proof.
  revert address cache. induction lines as [|l lines IH]; intros address cache Hfree.
  - split; [by left|].
    intros [H|(before & line & ((after & Hl) & _) & _)]; [exact H|].
    by destruct before.
  - change (l :: lines) with ([l] ++ lines). rewrite secondPass_app.
    change (secondPass labels [l] (address, cache))
      with (secondPass_line labels (address, cache) l).
    cbn [app].
    assert (Hshift : forall before line,
              accepted_at labels lines before line i ->
              accepted_at labels (l :: lines) (l :: before) line i).
    { intros before line ((after & ->) & H2 & H3).
      split; [by exists after | by split]. }
    assert (Hunshift : forall before line,
              accepted_at labels (l :: lines) before line i ->
              (before = [] /\ line = l) \/
              exists before', before = l :: before' /\
                              accepted_at labels lines before' line i).
    { intros before line ((after & Hl) & H2 & H3).
      destruct before as [|b before'].
      - left. cbn in Hl. by injection Hl as -> _.
      - right. cbn in Hl. injection Hl as <- ->. exists before'.
        split; [done|]. split; [by exists after | by split]. }
    unfold secondPass_line.
    destruct (holdsInstruction l) eqn:Hh.
    + destruct (parseInstruction (instructionText l) labels) as [j|] eqn:Hp.
      * rewrite IH.
        2:{ intros k Hk. rewrite lookup_insert_ne by lia. apply Hfree. lia. }
        split.
        -- intros [H|(before & line & Hacc & ->)].
           ++ destruct (decide (address = a)) as [<-|Hne].
              ** rewrite lookup_insert_eq in H. injection H as ->.
                 right. exists [], l. split.
                 --- split; [by exists lines | by split].
                 --- unfold instruction_lines. cbn. lia.
              ** rewrite lookup_insert_ne in H by done. by left.
           ++ right. exists (l :: before), line. split; [by apply Hshift|].
              rewrite instruction_lines_cons, Hh. lia.
        -- intros [H|(before & line & Hacc & ->)].
           ++ left. rewrite lookup_insert_ne; [exact H|].
              intros <-. rewrite Hfree in H by lia. discriminate.
           ++ destruct (Hunshift _ _ Hacc) as [[-> ->]|(before' & -> & Hacc')].
              ** left. destruct Hacc as (_ & _ & Hp').
                 rewrite Hp in Hp'. injection Hp' as ->.
                 replace (address + 4 * instruction_lines [])
                   with address by (unfold instruction_lines; cbn; lia).
                 apply lookup_insert_eq.
              ** right. exists before', line. split; [exact Hacc'|].
                 rewrite instruction_lines_cons, Hh. lia.
      * rewrite IH by (intros k Hk; apply Hfree; lia).
        split.
        -- intros [H|(before & line & Hacc & ->)]; [by left|].
           right. exists (l :: before), line. split; [by apply Hshift|].
           rewrite instruction_lines_cons, Hh. lia.
        -- intros [H|(before & line & Hacc & ->)]; [by left|].
           destruct (Hunshift _ _ Hacc) as [[-> ->]|(before' & -> & Hacc')].
           ++ destruct Hacc as (_ & _ & Hp'). rewrite Hp in Hp'. discriminate.
           ++ right. exists before', line. split; [exact Hacc'|].
              rewrite instruction_lines_cons, Hh. lia.
    + rewrite IH by exact Hfree.
      split.
      * intros [H|(before & line & Hacc & ->)]; [by left|].
        right. exists (l :: before), line. split; [by apply Hshift|].
        rewrite instruction_lines_cons, Hh. lia.
      * intros [H|(before & line & Hacc & ->)]; [by left|].
        destruct (Hunshift _ _ Hacc) as [[-> ->]|(before' & -> & Hacc')].
        -- destruct Hacc as (_ & Hh' & _). rewrite Hh in Hh'. discriminate.
        -- right. exists before', line. split; [exact Hacc'|].
           rewrite instruction_lines_cons, Hh. lia.
Qed.

(** X12. The loaded store, entry by entry: address [a] holds instruction
    [i] exactly when some line of the program takes an address, parses to
    [i], and [a] is four times the number of address-taking lines before
    it.  Blank lines, comment lines and lines holding only a label take no
    address; a rejected line takes one. *)
Theorem loadProgram_placement (s : MIPSPipeline) (programText : string)
  (a : Z) (i : Instruction) :
  let lines := JS.split "010" programText in
  let labels := firstPass lines in
  instructionCache (loadProgram s programText) !! a = Some i <->
  exists before line,
    accepted_at labels lines before line i /\
    a = 4 * instruction_lines before.
Proof.
  intros lines labels.
  change (snd (secondPass labels lines (0, ∅)) !! a = Some i <->
          exists before line,
            accepted_at labels lines before line i /\
            a = 4 * instruction_lines before).
  rewrite secondPass_placement by (intros k _; apply lookup_empty).
  rewrite lookup_empty. split.
  - intros [H|(before & line & H1 & H2)]; [discriminate|].
    exists before, line. split; [exact H1 | lia].
  - intros (before & line & H1 & H2). right.
    exists before, line. split; [exact H1 | lia].
Qed.

(** ** Loader: labels *)

Lemma firstPass_line_address address labels line :
  fst (firstPass_line (address, labels) line) =
  address + (if holdsInstruction line then 4 else 0).
Proof.
  unfold firstPass_line. destruct (holdsInstruction line); cbn [fst]; lia.
Qed.

Lemma firstPass_line_labels address labels line (l : string) :
  snd (firstPass_line (address, labels) line) !! l =
  if decide (label_of_line line = Some l) then Some (address / 4)
  else labels !! l.
Proof.
  unfold firstPass_line, label_of_line.
  destruct (labelMatch (trim line)) as [[l' rest]|]; cbn [fmap option_fmap option_map fst].
  - destruct (decide (Some l' = Some l)) as [[= ->]|Hne].
    + destruct (holdsInstruction line); cbn [snd]; apply lookup_insert_eq.
    + assert (l' <> l) by congruence.
      destruct (holdsInstruction line); cbn [snd]; by apply lookup_insert_ne.
  - destruct (decide (None = Some l)); [discriminate|].
    by destruct (holdsInstruction line).
Qed.

Lemma firstPass_fold_address lines address labels :
  fst (fold_left firstPass_line lines (address, labels)) =
  address + 4 * instruction_lines lines.
Proof.
  revert address labels. induction lines as [|x lines IH]; intros address labels.
  - unfold instruction_lines. cbn. lia.
  - cbn [fold_left].
    pose proof (firstPass_line_address address labels x) as H.
    destruct (firstPass_line (address, labels) x) as [a' l'].
    cbn [fst] in H. subst a'. rewrite IH, instruction_lines_cons.
    destruct (holdsInstruction x); lia.
Qed.

Lemma firstPass_fold_undefined lines address labels (l : string) :
  (forall x, x ∈ lines -> label_of_line x <> Some l) ->
  snd (fold_left firstPass_line lines (address, labels)) !! l = labels !! l.
Proof.
  revert address labels. induction lines as [|x lines IH]; intros address labels H.
  - reflexivity.
  - cbn [fold_left].
    pose proof (firstPass_line_labels address labels x l) as Hl.
    destruct (firstPass_line (address, labels) x) as [a' l'].
    cbn [snd] in Hl. rewrite IH.
    + rewrite Hl. destruct (decide _) as [E|]; [|done].
      destruct (H x); [by left | exact E].
    + intros y Hy. apply H. by right.
Qed.

Lemma firstPass_binding before line after (l : string) :
  label_of_line line = Some l ->
  (forall x, x ∈ after -> label_of_line x <> Some l) ->
  firstPass (before ++ line :: after) !! l = Some (instruction_lines before).
Proof.
  intros Hl Hafter. unfold firstPass.
  rewrite fold_left_app. cbn [fold_left].
  pose proof (firstPass_fold_address before 0 ∅) as Ha.
  destruct (fold_left firstPass_line before (0, ∅)) as [a1 l1].
  cbn [fst] in Ha.
  pose proof (firstPass_line_labels a1 l1 line l) as Hb.
  destruct (firstPass_line (a1, l1) line) as [a2 l2]. cbn [snd] in Hb.
  rewrite firstPass_fold_undefined by exact Hafter.
  rewrite Hb. destruct (decide _); [|contradiction].
  f_equal. subst a1. rewrite Z.add_0_l, Z.mul_comm. by apply Z.div_mul.
Qed.

(** X13. Labels: a label is bound to the number of address-taking lines
    before the line that defines it, that is to the index of the next
    instruction; when a label is defined several times the last definition
    wins; a label no line defines is absent from the table. *)
Theorem firstPass_labels (programText : string) (l : string) :
  let lines := JS.split "010" programText in
  (forall before line after,
     lines = before ++ line :: after ->
     label_of_line line = Some l ->
     (forall x, x ∈ after -> label_of_line x <> Some l) ->
     firstPass lines !! l = Some (instruction_lines before)) /\
  ((forall x, x ∈ lines -> label_of_line x <> Some l) ->
   firstPass lines !! l = None).
Proof.
  intros lines. split.
  - intros before line after -> Hl Hafter. by apply firstPass_binding.
  - intros H. unfold firstPass.
    rewrite firstPass_fold_undefined by exact H. apply lookup_empty.
Qed.

Lemma firstPass_labels_witness :
  firstPass (JS.split "010" label_program) !! "x" = Some 1.
Proof.
  destruct (firstPass_labels label_program "x") as (H & _).
  assert (Hlines : JS.split "010" label_program =
                   ["x: nop"; "# only a comment"]
                   ++ "x: add $s1, $s2, $s3" :: ["j x"])
    by (vm_compute; reflexivity).
  assert (Hl : label_of_line "x: add $s1, $s2, $s3" = Some "x")
    by (vm_compute; reflexivity).
  rewrite (H _ _ _ Hlines Hl).
  - vm_compute. reflexivity.
  - intros x Hx. apply list_elem_of_singleton in Hx as ->.
    vm_compute. discriminate.
Defined.

(** X14. The two passes agree: when the line that defines a label (last)
    also holds an accepted instruction, the index bound to the label, times
    four as the decode stage computes the target of a [j] or a taken
    [beq], is the address where that instruction is stored; and an operand
    naming the label resolves to that index. *)
Theorem label_points_to_its_instruction (s : MIPSPipeline)
  (programText : string) (before after : list string) (line l : string)
  (i : Instruction) :
  let lines := JS.split "010" programText in
  let labels := firstPass lines in
  lines = before ++ line :: after ->
  label_of_line line = Some l ->
  (forall x, x ∈ after -> label_of_line x <> Some l) ->
  holdsInstruction line = true ->
  parseInstruction (instructionText line) labels = Some i ->
  exists index : Z,
    labels !! l = Some index /\
    resolve labels l = Some index /\
    instructionCache (loadProgram s programText) !! (index * 4) = Some i.
Proof.
  intros lines labels Hlines Hl Hafter Hh Hp.
  exists (instruction_lines before).
  assert (Hb : labels !! l = Some (instruction_lines before)).
  { subst labels. rewrite Hlines. by apply firstPass_binding. }
  split; [exact Hb|]. split; [unfold resolve; by rewrite Hb|].
  change (snd (secondPass labels lines (0, ∅))
            !! (instruction_lines before * 4) = Some i).
  rewrite secondPass_placement by (intros k _; apply lookup_empty).
  right. exists before, line. split; [|lia].
  split; [by exists after | by split].
Qed.

Lemma label_points_to_its_instruction_witness :
  instructionCache (loadProgram constructor label_program) !! 4 =
  Some (mkInstruction R_TYPE "add" (Some 2) (Some 3) (Some 1) None None None).
Proof.
  assert (Hlines : JS.split "010" label_program =
                   ["x: nop"; "# only a comment"]
                   ++ "x: add $s1, $s2, $s3" :: ["j x"])
    by (vm_compute; reflexivity).
  assert (Hl : label_of_line "x: add $s1, $s2, $s3" = Some "x")
    by (vm_compute; reflexivity).
  assert (Hafter : forall x, x ∈ ["j x"] -> label_of_line x <> Some "x").
  { intros x Hx. apply list_elem_of_singleton in Hx as ->.
    vm_compute. discriminate. }
  assert (Hh : holdsInstruction "x: add $s1, $s2, $s3" = true)
    by (vm_compute; reflexivity).
  assert (Hp : parseInstruction (instructionText "x: add $s1, $s2, $s3")
                 (firstPass (JS.split "010" label_program)) =
               Some (mkInstruction R_TYPE "add" (Some 2) (Some 3) (Some 1)
                       None None None)) by (vm_compute; reflexivity).
  destruct (label_points_to_its_instruction constructor label_program
              _ _ _ "x" _ Hlines Hl Hafter Hh Hp) as (index & H1 & _ & H3).
  assert (Hi : index = 1).
  { assert (E : firstPass (JS.split "010" label_program) !! "x" = Some 1)
      by (vm_compute; reflexivity).
    cbv zeta in H1. rewrite E in H1. by injection H1. }
  subst index. exact H3.
Defined.

(** ** Loader: comments *)

Lemma split_hd_cons (sep c : ascii) (r : string) :
  hd EmptyString (JS.split sep (String c r)) =
  if Ascii.eqb c sep then EmptyString
  else String c (hd EmptyString (JS.split sep r)).
Proof.
  cbn [JS.split]. destruct (Ascii.eqb c sep); [reflexivity|].
  by destruct (JS.split sep r).
Qed.

Lemma split_hd_comment (a b : string) :
  hd EmptyString (JS.split "#" (a +:+ String "#" b)) =
  hd EmptyString (JS.split "#" a).
Proof.
  induction a as [|c a IH].
  - reflexivity.
  - change (String c a +:+ String "#" b) with (String c (a +:+ String "#" b)).
    rewrite !split_hd_cons. by rewrite IH.
Qed.

(** X15. Comments: [parseInstruction] ignores a [#] and everything after
    it, whatever stands before. *)
Theorem parseInstruction_comment (a b : string) (labels : gmap string Z) :
  parseInstruction (a +:+ String "#" b) labels = parseInstruction a labels.
Proof. unfold parseInstruction. by rewrite split_hd_comment. Qed.

(** ** Registers *)

Lemma register_tables_checked (i : nat) :
  (i < 32)%nat -> register_tables_agree i = true.
Proof.
  intros H.
  assert (Hall : forallb register_tables_agree (seq 0 32) = true)
    by (vm_compute; reflexivity).
  rewrite forallb_forall in Hall. apply Hall, in_seq. lia.
Qed.

Lemma RegisterAlias_lookup (name : string) (r : Z) :
  RegisterAlias !! name = Some r ->
  exists i : nat,
    (i < 32)%nat /\ r = Z.of_nat i /\
    name = "$s" +:+ DecimalString.NilZero.string_of_uint (Nat.to_uint i).
Proof.
  intros H. unfold RegisterAlias in H.
  apply elem_of_list_to_map_2, list_elem_of_fmap in H as (i & [= -> ->] & Hi).
  apply elem_of_seq in Hi. exists i. split; [lia|done].
Qed.

Lemma parseRegister_range str r : parseRegister str = Some r -> 0 <= r <= 31.
Proof.
  unfold parseRegister. intros H.
  apply RegisterAlias_lookup in H as (i & Hi & -> & _). lia.
Qed.

(** X16. Register names: [parseRegister] accepts exactly the 32 names of
    [RegisterAlias], so its answers lie in 0..31, and [RegisterName] is the
    inverse table: the name displayed for an index parses back to the index,
    with or without the comma that follows an operand. *)
Theorem parseRegister_RegisterName :
  (forall (str : string) (r : Z),
     parseRegister str = Some r ->
     0 <= r <= 31 /\
     RegisterName !! r = Some (JS.trim (JS.remove_first "," str))) /\
  (forall r : Z,
     0 <= r <= 31 ->
     exists name,
       RegisterName !! r = Some name /\
       parseRegister name = Some r /\
       parseRegister (name +:+ ",") = Some r).
Proof.
  split.
  - intros str r H. split; [by eapply parseRegister_range|].
    unfold parseRegister in H.
    apply RegisterAlias_lookup in H as (i & Hi & -> & ->).
    pose proof (register_tables_checked i Hi) as Hc.
    unfold register_tables_agree in Hc.
    rewrite !andb_true_iff, !bool_decide_eq_true in Hc. tauto.
  - intros r Hr.
    assert (Hi : (Z.to_nat r < 32)%nat) by lia.
    pose proof (register_tables_checked _ Hi) as Hc.
    unfold register_tables_agree in Hc.
    rewrite !andb_true_iff, !bool_decide_eq_true in Hc.
    rewrite Z2Nat.id in Hc by lia.
    destruct Hc as (((H1 & _) & H3) & H4).
    eexists. split; [exact H1|]. split; [exact H3 | exact H4].
Qed.

Lemma parseRegister_RegisterName_witness :
  parseRegister " $s7," = Some 7 /\
  exists name, RegisterName !! 31 = Some name /\ parseRegister name = Some 31.
Proof.
  destruct parseRegister_RegisterName as (H1 & H2).
  split; [vm_compute; reflexivity|].
  destruct (H2 31) as (name & Hn & Hp & _); [lia|].
  exists name. by split.
Defined.

Lemma parseRTypeInstruction_range parts i :
  parseRTypeInstruction parts = Some i -> fields_in_range i.
Proof.
  unfold parseRTypeInstruction.
  destruct parts as [|p0 [|p1 [|p2 [|p3 [|]]]]]; try discriminate.
  destruct (parseRegister p1) as [x1|] eqn:E1; [|discriminate].
  destruct (parseRegister p2) as [x2|] eqn:E2; [|discriminate].
  destruct (parseRegister p3) as [x3|] eqn:E3; [|discriminate].
  intros [= <-] r. cbn [rs rt rd].
  apply parseRegister_range in E1, E2, E3.
  intros [[= <-]|[[= <-]|[= <-]]]; assumption.
Qed.

Lemma parseITypeInstruction_range parts labels i :
  parseITypeInstruction parts labels = Some i -> fields_in_range i.
Proof.
  unfold parseITypeInstruction. destruct parts as [|p0 ops]; [discriminate|].
  destruct (String.eqb (toLowerCase p0) "beq").
  - destruct ops as [|p1 [|p2 [|p3 [|]]]]; try discriminate.
    destruct (parseRegister p1) as [x1|] eqn:E1; [|discriminate].
    destruct (parseRegister p2) as [x2|] eqn:E2; [|discriminate].
    destruct (resolve labels p3); [|discriminate].
    intros [= <-] r. cbn [rs rt rd].
    apply parseRegister_range in E1, E2.
    intros [[= <-]|[[= <-]|?]]; [assumption..|discriminate].
  - destruct (String.eqb (toLowerCase p0) "lw" || String.eqb (toLowerCase p0) "sw");
      [|discriminate].
    destruct ops as [|p1 [|p2 [|]]]; try discriminate.
    destruct (offsetMatch p2) as [[g1 g2]|]; [|discriminate].
    destruct (parseRegister g2) as [x1|] eqn:E1; [|discriminate].
    destruct (parseRegister p1) as [x2|] eqn:E2; [|discriminate].
    destruct (parseInt g1); [|discriminate].
    intros [= <-] r. cbn [rs rt rd].
    apply parseRegister_range in E1, E2.
    intros [[= <-]|[[= <-]|?]]; [assumption..|discriminate].
Qed.

Lemma parseInstruction_range line labels i :
  parseInstruction line labels = Some i -> fields_in_range i.
Proof.
  unfold parseInstruction.
  destruct (is_empty _); [discriminate|].
  destruct (split_spaces _) as [|p0 ops]; [discriminate|].
  destruct (String.eqb (toLowerCase p0) "add" || String.eqb (toLowerCase p0) "sub"
            || String.eqb (toLowerCase p0) "mul");
    [apply parseRTypeInstruction_range|].
  destruct (String.eqb (toLowerCase p0) "lw" || String.eqb (toLowerCase p0) "sw"
            || String.eqb (toLowerCase p0) "beq");
    [apply parseITypeInstruction_range|].
  destruct (String.eqb (toLowerCase p0) "j").
  - unfold parseJTypeInstruction.
    destruct (map _ ops) as [|p1 [|]]; try discriminate.
    destruct (resolve labels p1); [|discriminate].
    intros [= <-] r. cbn [rs rt rd]. by intros [?|[?|?]].
  - destruct (String.eqb (toLowerCase p0) "nop"); [|discriminate].
    intros [= <-] r. cbn. by intros [?|[?|?]].
Qed.

Lemma loadedCache_range programText a i :
  loadedCache programText !! a = Some i -> fields_in_range i.
Proof.
  unfold loadedCache. intros H.
  apply secondPass_placement in H; [|intros k _; apply lookup_empty].
  destruct H as [H|(before & line & (_ & _ & H) & _)].
  - by rewrite lookup_empty in H.
  - by eapply parseInstruction_range.
Qed.

(** ** What a cycle keeps *)

(** A cycle invents no instruction: whatever is in flight after it was in
    flight before it or is stored in the program. *)
Lemma executeCycle_in_flight s i :
  in_flight (executeCycle s) i ->
  in_flight s i \/ exists a, instructionCache s !! a = Some i.
Proof.
  destruct (executeCycle_slots s) as (H1 & H2 & H3 & H4 & H5).
  unfold in_flight. rewrite H1, H2, H3, H4, H5.
  intros [H|[H|[H|[H|H]]]].
  - destruct (detectHazards s); [discriminate|].
    unfold fetchInstruction in H. destruct (PC (executeCycle s)); try discriminate.
    right. by eexists.
  - left. by left.
  - left. right. by left.
  - left. do 2 right. by left.
  - left. destruct (MEM_of s); [do 3 right; by left | do 4 right; exact H].
Qed.

Lemma insert_register_file (regs : gmap key value) (r : Z) (v : value) :
  (forall k, is_Some (regs !! k) <-> exists r, k = KInt r /\ 0 <= r <= 31) ->
  0 <= r <= 31 ->
  forall k, is_Some (<[KInt r := v]> regs !! k) <->
            exists r, k = KInt r /\ 0 <= r <= 31.
Proof.
  intros H Hr k. rewrite lookup_insert_is_Some, <- H. split.
  - intros [<-|[_ Hk]]; [|exact Hk]. apply H. by exists r.
  - intros Hk. destruct (decide (KInt r = k)); [by left | by right].
Qed.

Lemma executeWB_register_file s :
  engine_ok s -> (forall i, in_flight s i -> fields_in_range i) ->
  register_file_ok s -> register_file_ok (executeWB s).
Proof.
  intros Hok Hfl Hregs. unfold executeWB.
  destruct (MEM_of s) as [m|] eqn:Em; [|exact Hregs].
  cbn zeta.
  assert (Hshape : parsed_shape (instruction m)).
  { destruct Hok as (_ & _ & _ & _ & _ & Hm & _). by apply Hm. }
  assert (Hrange : fields_in_range (instruction m)).
  { apply Hfl. do 3 right. left. by rewrite Em. }
  unfold register_file_ok.
  cbn [registradores on_stages with_stages].
  destruct (decide (type (instruction m) = R_TYPE)) as [HR|HR].
  - cbn [registradores with_registradores].
    unfold parsed_shape in Hshape. rewrite HR in Hshape.
    destruct Hshape as (_ & _ & _ & [rd' Hrd]). rewrite Hrd.
    apply insert_register_file; [exact Hregs|]. apply Hrange. auto.
  - destruct (String.eqb (opcode (instruction m)) Opcode.LW) eqn:Elw;
      [|exact Hregs].
    cbn [registradores with_registradores].
    apply eqb_true_iff in Elw. unfold Opcode.LW in Elw.
    unfold parsed_shape in Hshape. rewrite Elw in Hshape.
    destruct (type (instruction m)); try done.
    + destruct Hshape as (_ & _ & [rt' Hrt] & _). rewrite Hrt.
      apply insert_register_file; [exact Hregs|]. apply Hrange. auto.
    + by destruct Hshape as [Hshape _].
Qed.

Lemma executeCycle_registers_inv s :
  registers_inv s -> registers_inv (executeCycle s).
Proof.
  intros (Hok & Hc & Hfl & Hregs).
  split; [by apply executeCycle_ok|]. split; [|split].
  - intros a i. rewrite executeCycle_instructionCache. apply Hc.
  - intros i Hi. apply executeCycle_in_flight in Hi as [Hi|[a Hi]].
    + by apply Hfl.
    + by eapply Hc.
  - unfold register_file_ok. rewrite executeCycle_registradores.
    by apply executeWB_register_file.
Qed.

Lemma constructor_registers_inv : registers_inv constructor.
Proof.
  split; [exact constructor_ok|]. split; [|split].
  - intros a i. cbn [instructionCache constructor]. by rewrite lookup_empty.
  - intros i [H|[H|[H|[H|H]]]]; discriminate H.
  - intros k. cbn [registradores constructor]. rewrite zeros_lookup.
    destruct k as [r| | |].
    + destruct (Z.leb_spec 0 r), (Z.ltb_spec r (Z.of_nat 32)); cbn [andb]; split.
      all: try (intros _; exists r; split; [done|lia]).
      all: try (intros [x Hx]; discriminate Hx).
      all: try (intros (x & [= <-] & Hx); lia).
      all: try (intros _; by eexists).
    + split; [intros [x Hx]; discriminate Hx | intros (x & Hx & _); discriminate Hx].
    + split; [intros [x Hx]; discriminate Hx | intros (x & Hx & _); discriminate Hx].
    + split; [intros [x Hx]; discriminate Hx | intros (x & Hx & _); discriminate Hx].
Qed.

Lemma perform_registers_inv s c :
  call_in_range c -> registers_inv s -> registers_inv (perform s c).
Proof.
  intros Hc H. pose proof (perform_ok s c (proj1 H)) as Hok.
  destruct c as [a|a taken| |text| |index v|address v]; cbn [perform] in *.
  - split; [exact Hok|]. apply H.
  - split; [exact Hok|]. apply H.
  - by apply executeCycle_registers_inv.
  - split; [exact Hok|]. destruct H as (_ & _ & Hfl & Hregs).
    split; [|split; [exact Hfl | exact Hregs]].
    intros a i. unfold loadProgram.
    cbn [instructionCache with_instructionCache]. apply loadedCache_range.
  - split; [exact Hok|]. destruct constructor_registers_inv as (_ & H2 & H3 & H4).
    split; [exact H2|]. split; [exact H3 | exact H4].
  - split; [exact Hok|]. destruct H as (_ & Hcache & Hfl & Hregs).
    split; [exact Hcache|]. split; [exact Hfl|].
    unfold register_file_ok. cbn [registradores with_registradores].
    by apply insert_register_file.
  - split; [exact Hok|]. apply H.
Qed.

Lemma after_calls_registers_inv (calls : list call) :
  Forall call_in_range calls -> registers_inv (after_calls calls).
Proof.
  unfold after_calls. generalize constructor_registers_inv. generalize constructor.
  induction calls as [|c calls IH]; intros s H Hall; [exact H|].
  cbn [fold_left]. apply Forall_cons in Hall as [Hc Hall].
  apply IH; [|exact Hall]. by apply perform_registers_inv.
Qed.

(** X17. The register file keeps its 32 entries: on an engine reached from
    a fresh one by cycles, program loads, resets, predictor calls, memory
    writes and writes to registers 0..31, every instruction stored or in
    flight names registers within 0..31 only, and the register file has
    exactly the indices 0..31: write-back never adds a property to the
    array. *)
Theorem register_file_never_grows (calls : list call) :
  Forall call_in_range calls ->
  let s := after_calls calls in
  (forall a i, instructionCache s !! a = Some i -> fields_in_range i) /\
  (forall i, in_flight s i -> fields_in_range i) /\
  (forall k, is_Some (registradores s !! k) <->
             exists r, k = KInt r /\ 0 <= r <= 31).
Proof. intros H. by destruct (after_calls_registers_inv calls H) as (_ & ?). Qed.


Lemma register_file_never_grows_witness :
  Forall call_in_range short_session /\
  forall k, is_Some (registradores (after_calls short_session) !! k) <->
            exists r, k = KInt r /\ 0 <= r <= 31.
Proof.
  assert (H : Forall call_in_range short_session).
  { unfold short_session. repeat constructor; cbn; lia. }
  split; [exact H|].
  exact (proj2 (proj2 (register_file_never_grows short_session H))).
Defined.

(** ** The program counter *)






(** ** Branch predictor *)

(** X19. Hysteresis and locality of the predictor.  With the counter of an
    address within 0..3, an update moves it one step towards the outcome
    and stops at 0 and 3; the answer of [predictBranch] changes exactly on
    the two steps between 1 and 2, so that a strongly held prediction
    survives one contrary outcome; the entries and answers of all other
    addresses, and everything else in the engine, are left alone. *)
Theorem updateBranchPredictor_hysteresis (s : MIPSPipeline) (a : Z)
  (taken : bool) :
  0 <= counter s a <= 3 ->
  let s' := updateBranchPredictor s a taken in
  counter s' a =
    (if taken then (if counter s a =? 3 then 3 else counter s a + 1)
     else (if counter s a =? 0 then 0 else counter s a - 1)) /\
  (fst (predictBranch s' a) <> fst (predictBranch s a) <->
   (counter s a = 1 /\ taken = true) \/ (counter s a = 2 /\ taken = false)) /\
  (forall b, b <> a ->
     branchPredictor s' !! b = branchPredictor s !! b /\
     fst (predictBranch s' b) = fst (predictBranch s b)) /\
  with_branchPredictor (branchPredictor s) s' = s.
Proof.
  intros Hv s'.
  assert (Hc : counter s' a =
               if taken then Z.min (counter s a + 1) 3
               else Z.max (counter s a - 1) 0).
  { unfold counter, s', updateBranchPredictor.
    cbn [branchPredictor with_branchPredictor].
    rewrite update_lookup. reflexivity. }
  assert (Hans : forall s0 b, fst (predictBranch s0 b) = (2 <=? counter s0 b)).
  { intros s0 b. rewrite predictBranch_fst. apply predict_answer. }
  split; [|split; [|split]].
  - rewrite Hc. destruct taken.
    + destruct (Z.eqb_spec (counter s a) 3); lia.
    + destruct (Z.eqb_spec (counter s a) 0); lia.
  - rewrite !Hans, Hc.
    destruct taken;
      destruct (Z.leb_spec 2 (counter s a));
      [destruct (Z.leb_spec 2 (Z.min (counter s a + 1) 3))
      |destruct (Z.leb_spec 2 (Z.min (counter s a + 1) 3))
      |destruct (Z.leb_spec 2 (Z.max (counter s a - 1) 0))
      |destruct (Z.leb_spec 2 (Z.max (counter s a - 1) 0))];
      split; try congruence; try lia; intros; exfalso; lia.
  - intros b Hb.
    assert (E : branchPredictor s' !! b = branchPredictor s !! b).
    { unfold s', updateBranchPredictor.
      cbn [branchPredictor with_branchPredictor].
      apply update_lookup_ne. congruence. }
    split; [exact E|]. rewrite !Hans. unfold counter. by rewrite E.
  - unfold s', updateBranchPredictor, with_branchPredictor.
    cbn. by destruct s.
Qed.

Lemma updateBranchPredictor_hysteresis_witness :
  fst (predictBranch
         (updateBranchPredictor (taken_times 3 8 constructor) 8 false) 8)
  = fst (predictBranch (taken_times 3 8 constructor) 8).
Proof.
  assert (H : 0 <= counter (taken_times 3 8 constructor) 8 <= 3)
    by (vm_compute; split; discriminate).
  destruct (updateBranchPredictor_hysteresis (taken_times 3 8 constructor) 8
              false H) as (_ & H2 & _).
  destruct (bool_decide
              (fst (predictBranch
                      (updateBranchPredictor (taken_times 3 8 constructor) 8 false) 8)
               = fst (predictBranch (taken_times 3 8 constructor) 8))) eqn:E.
  - by apply bool_decide_eq_true in E.
  - apply bool_decide_eq_false in E. apply H2 in E.
    assert (Hc : counter (taken_times 3 8 constructor) 8 = 3)
      by (vm_compute; reflexivity).
    rewrite Hc in E. destruct E as [[E _]|[E _]]; discriminate E.
Defined.

Lemma fold_perform_counter (calls : list call) (a : Z) :
  0 <= counter (after_calls calls) a <= 3.
Proof.
  unfold counter.
  destruct (branchPredictor (after_calls calls) !! a) as [v|] eqn:E; cbn.
  - revert E. unfold after_calls. apply fold_perform_two_bit.
    intros k w. cbn. by rewrite lookup_empty.
  - unfold BranchState.WEAKLY_NOT_TAKEN. lia.
Qed.

(** X20. The names of the predictor states: on every engine reached from
    a fresh one, the state of an entry is named by one of the four names,
    never ['Unknown']; different states have different names; and the name
    tells the answer of [predictBranch], which is true exactly for the two
    names that say taken. *)
Theorem getBranchStateName_reachable (calls : list call) (a v : Z) :
  branchPredictor (after_calls calls) !! a = Some v ->
  getBranchStateName v <> "Unknown" /\
  (forall w, 0 <= w <= 3 -> getBranchStateName w = getBranchStateName v -> w = v) /\
  (fst (predictBranch (after_calls calls) a) = true <->
   getBranchStateName v = "Strongly Taken" \/
   getBranchStateName v = "Weakly Taken").
Proof.
  intros E.
  pose proof (fold_perform_counter calls a) as Hv.
  assert (Ha : fst (predictBranch (after_calls calls) a) = (2 <=? v)).
  { rewrite predictBranch_fst, predict_answer. by rewrite E. }
  unfold counter in Hv. rewrite E in Hv. cbn in Hv.
  assert (Hcases : v = 0 \/ v = 1 \/ v = 2 \/ v = 3) by lia.
  rewrite Ha.
  assert (Hinj : forall w, 0 <= w <= 3 ->
                 getBranchStateName w = getBranchStateName v -> w = v).
  { intros w Hw Hn.
    assert (Hc : w = 0 \/ w = 1 \/ w = 2 \/ w = 3) by lia.
    destruct Hcases as [-> | [-> | [-> | ->]]];
      destruct Hc as [-> | [-> | [-> | ->]]];
      first [reflexivity | discriminate Hn]. }
  split; [|split; [exact Hinj|]].
  - destruct Hcases as [-> | [-> | [-> | ->]]]; discriminate.
  - destruct Hcases as [-> | [-> | [-> | ->]]]; vm_compute; split.
    all: first [discriminate | intros [H|H]; discriminate H | intros _; reflexivity
               | intros _; left; reflexivity | intros _; right; reflexivity].
Qed.

Lemma getBranchStateName_reachable_witness :
  getBranchStateName 2 <> "Unknown".
Proof.
  assert (E : branchPredictor (after_calls [CallUpdate 8 true]) !! 8 = Some 2)
    by (vm_compute; reflexivity).
  exact (proj1 (getBranchStateName_reachable _ _ _ E)).
Defined.

(** ** The predictor and the cycle *)

Lemma executeForwarding_table t s :
  executeForwarding (with_branchPredictor t s) =
  with_branchPredictor t (executeForwarding s).
Proof.
  destruct s as [regs mem [i d e m w] pc bp st cy cache run int sp].
  unfold executeForwarding. cbn.
  destruct d as [d|]; [|reflexivity]. destruct e as [e|]; reflexivity.
Qed.

Lemma detectHazards_table t s :
  detectHazards (with_branchPredictor t s) = detectHazards s.
Proof. reflexivity. Qed.

Lemma executeWB_table t s :
  executeWB (with_branchPredictor t s) = with_branchPredictor t (executeWB s).
Proof.
  destruct s as [regs mem [i d e m w] pc bp st cy cache run int sp].
  unfold executeWB. cbn.
  destruct m as [m|]; [|reflexivity]. cbn.
  destruct (decide _); [reflexivity|]. by destruct (String.eqb _ _).
Qed.

Lemma executeMEM_table t s :
  executeMEM (with_branchPredictor t s) = with_branchPredictor t (executeMEM s).
Proof.
  destruct s as [regs mem [i d e m w] pc bp st cy cache run int sp].
  unfold executeMEM. cbn.
  destruct e as [e|]; [|reflexivity]. cbn.
  destruct (String.eqb _ Opcode.LW); [reflexivity|].
  by destruct (String.eqb _ Opcode.SW).
Qed.

Lemma executeEX_table t s :
  executeEX (with_branchPredictor t s) = with_branchPredictor t (executeEX s).
Proof.
  destruct s as [regs mem [i d e m w] pc bp st cy cache run int sp].
  unfold executeEX. cbn. by destruct d.
Qed.

Lemma executeID_table t s :
  executeID (with_branchPredictor t s) = with_branchPredictor t (executeID s).
Proof.
  destruct s as [regs mem [i d e m w] pc bp st cy cache run int sp].
  unfold executeID. cbn.
  destruct i as [i|]; [|reflexivity].
  unfold executeID_latch, executeID_control.
  destruct (String.eqb (opcode i) Opcode.BEQ); cbn [orb].
  - by destruct (strict_eq _ _).
  - by destruct (String.eqb (opcode i) Opcode.J).
Qed.

Lemma executeIF_table t s :
  executeIF (with_branchPredictor t s) = with_branchPredictor t (executeIF s).
Proof.
  destruct s as [regs mem [i d e m w] pc bp st cy cache run int sp].
  unfold executeIF. cbn.
  destruct (negb st); [|reflexivity].
  by destruct (fetchInstruction _ _).
Qed.

Lemma executeCycle_table t s :
  executeCycle (with_branchPredictor t s) =
  with_branchPredictor t (executeCycle s).
Proof.
  unfold executeCycle. cbn zeta.
  rewrite executeForwarding_table, detectHazards_table.
  change (with_stalled ?h (with_branchPredictor t ?x))
    with (with_branchPredictor t (with_stalled h x)).
  rewrite executeWB_table, executeMEM_table, executeEX_table, executeID_table,
    executeIF_table.
  set (x := executeIF _). clearbody x. by destruct x.
Qed.

Lemma predictBranch_state s a :
  snd (predictBranch s a) = with_branchPredictor (touch a (branchPredictor s)) s.
Proof. reflexivity. Qed.

Lemma run_cycles_S n s : run_cycles (S n) s = run_cycles n (executeCycle s).
Proof. reflexivity. Qed.

Lemma run_cycles_table t n s :
  run_cycles n (with_branchPredictor t s) =
  with_branchPredictor t (run_cycles n s).
Proof.
  revert s. induction n as [|n IH]; intros s; [reflexivity|].
  rewrite !run_cycles_S, executeCycle_table. apply IH.
Qed.

(** X21. The cycle never consults the predictor: running a cycle on an
    engine whose table was replaced gives the engine the cycle gives
    without the replacement, with the table replaced.  Hence updates and
    predictions commute with cycles, and no register, memory cell, slot or
    PC after any number of cycles depends on the predictor. *)
Theorem executeCycle_ignores_predictor (s : MIPSPipeline) (t : gmap Z Z)
  (a : Z) (taken : bool) (n : nat) :
  executeCycle (with_branchPredictor t s) =
    with_branchPredictor t (executeCycle s) /\
  executeCycle (updateBranchPredictor s a taken) =
    updateBranchPredictor (executeCycle s) a taken /\
  executeCycle (snd (predictBranch s a)) = snd (predictBranch (executeCycle s) a) /\
  run_cycles n (with_branchPredictor t s) =
    with_branchPredictor t (run_cycles n s).
Proof.
  split; [apply executeCycle_table|]. split; [|split].
  - unfold updateBranchPredictor. rewrite executeCycle_table.
    rewrite executeCycle_branchPredictor. reflexivity.
  - rewrite !predictBranch_state, executeCycle_table.
    rewrite executeCycle_branchPredictor. reflexivity.
  - apply run_cycles_table.
Qed.


(** ** Results along the pipeline *)

Lemma executeID_control_PC_ext i x y :
  registradores x = registradores y -> PC x = PC y ->
  PC (executeID_control i x) = PC (executeID_control i y).
Proof.
  intros Hr Hp. unfold executeID_control, reg. rewrite Hr.
  destruct (String.eqb (opcode i) Opcode.BEQ); cbn [orb].
  - destruct (strict_eq _ _); cbn [PC on_stages with_stages with_PC];
      [done | by rewrite Hp].
  - destruct (String.eqb (opcode i) Opcode.J);
      cbn [PC on_stages with_stages with_PC]; [done | by rewrite Hp].
Qed.

Lemma executeCycle_PC_eq s :
  PC (executeCycle s) =
  match IF_of s with
  | Some i => PC (executeID_control i (executeWB s))
  | None => PC s
  end.
Proof.
  rewrite executeCycle_unfold. cbn zeta. cbn [PC with_cycle].
  rewrite executeIF_PC.
  destruct (before_decode_frame s) as (F1 & _ & F3).
  unfold executeID. rewrite F3. destruct (IF_of s) as [i|]; [|exact F1].
  unfold executeID_latch. cbn [PC on_stages with_stages].
  apply executeID_control_PC_ext.
  - apply before_decode_registradores.
  - rewrite F1. symmetry. apply executeWB_frame.
Qed.

(** X22. What the latches carry after a cycle.  The decode stage reads the
    register file write-back has just written in the same cycle, so an
    instruction entering ID sees the value retired in that very cycle; the
    execute stage computes from the operands as forwarding left them; the
    memory stage addresses with the registers after write-back; and the
    PC moves only when IF held an instruction, by the rule of
    [executeID]. *)
Theorem executeCycle_latches (s : MIPSPipeline) :
  ID_of (executeCycle s) = decoded (executeWB s) <$> IF_of s /\
  EX_of (executeCycle s) =
    (fun d => mkLatch (id_instruction d) (ex_result d))
      <$> ID_of (executeForwarding s) /\
  MEM_of (executeCycle s) =
    (fun e => mkLatch (instruction e) (mem_result (executeWB s) e))
      <$> EX_of s /\
  PC (executeCycle s) =
    match IF_of s with
    | Some i => PC (executeID_control i (executeWB s))
    | None => PC s
    end /\
  (forall i m r,
     IF_of s = Some i -> MEM_of s = Some m ->
     type (instruction m) = R_TYPE -> rd (instruction m) = Some r ->
     rs i = Some r ->
     rsValue <$> ID_of (executeCycle s) = Some (or_else (result m) (VNum 0))).
Proof.
  pose proof (executeCycle_stages s) as P.
  assert (HID : ID_of (executeCycle s) = decoded (executeWB s) <$> IF_of s).
  { unfold ID_of at 1. by rewrite P. }
  split; [exact HID|].
  split; [unfold EX_of at 1; by rewrite P|].
  split; [unfold MEM_of at 1; by rewrite P|].
  split; [apply executeCycle_PC_eq|].
  intros i m r Hi Hm HR Hrd Hrs. rewrite HID, Hi. cbn. f_equal. f_equal.
  unfold reg, executeWB. rewrite Hm. cbn zeta.
  destruct (decide _); [|contradiction].
  cbn [registradores on_stages with_stages with_registradores].
  rewrite Hrs, Hrd. unfold get. cbn [field_key]. by rewrite lookup_insert_eq.
Qed.

Lemma executeCycle_latches_witness :
  rsValue <$> ID_of (executeCycle write_then_read_example) = Some (VNum 12).
Proof.
  assert (Hi : IF_of write_then_read_example =
               Some (mkInstruction R_TYPE "add" (Some 1) (Some 1) (Some 4)
                       None None None)) by (vm_compute; reflexivity).
  assert (Hm : MEM_of write_then_read_example =
               Some (mkLatch (mkInstruction R_TYPE "add" (Some 2) (Some 3)
                                (Some 1) None None None) (VNum 12)))
    by (vm_compute; reflexivity).
  destruct (executeCycle_latches write_then_read_example) as (_ & _ & _ & _ & H).
  exact (H _ _ 1 Hi Hm eq_refl eq_refl eq_refl).
Defined.


(** ** An instruction from fetch to write-back *)















(** ** Branches, jumps and loads in the pipeline *)

Lemma detectControlHazard_detectHazards s :
  detectControlHazard s = true -> detectHazards s = true.
Proof.
  intros H. unfold detectHazards. rewrite H. apply orb_true_r.
Qed.

(** X24. What a branch or a jump costs.  When IF holds a [beq] or a [j],
    the cycle decodes it and, unless a hazard was detected, fetches in the
    same cycle from the PC the decode has just set: for a [j] that is four
    times its target, for a [beq] four times its offset when the two
    registers, read from the register file after this cycle's write-back
    with [|| 0], are strictly equal, and PC + 4 otherwise.  So no
    instruction of the path not followed is ever fetched.  In the next
    cycle the control hazard is detected, taken or not, and IF is left
    empty: one bubble. *)
Theorem control_instruction_costs_one_bubble (s : MIPSPipeline)
  (i : Instruction) :
  IF_of s = Some i -> opcode i = "beq" \/ opcode i = "j" ->
  let s1 := executeCycle s in
  id_instruction <$> ID_of s1 = Some i /\
  (detectHazards s = false -> IF_of s1 = fetchInstruction s (PC s1)) /\
  (opcode i = "j" -> PC s1 = mul (of_field (target i)) (VNum 4)) /\
  (opcode i = "beq" ->
   PC s1 = if beq_taken (executeWB s) i
           then mul (of_field (offset i)) (VNum 4)
           else add (PC s) (VNum 4)) /\
  detectHazards s1 = true /\
  stalled (executeCycle s1) = true /\
  IF_of (executeCycle s1) = None.
Proof.
  intros Hi Hop s1.
  destruct (executeCycle_slots s) as (_ & _ & _ & H4 & H5).
  fold s1 in H4, H5. rewrite Hi in H4.
  assert (Hh : detectHazards s1 = true).
  { apply detectControlHazard_detectHazards. unfold detectControlHazard.
    destruct (ID_of s1) as [d|]; [|discriminate H4].
    injection H4 as ->. unfold Opcode.BEQ, Opcode.J.
    destruct Hop as [-> | ->]; reflexivity. }
  assert (HPC : PC s1 = PC (executeID_control i (executeWB s))).
  { unfold s1. by rewrite executeCycle_PC_eq, Hi. }
  assert (HPCs : PC (executeWB s) = PC s) by apply executeWB_frame.
  split; [exact H4|]. split; [intros Hf; by rewrite H5, Hf|].
  split; [|split; [|split; [|split]]].
  - intros Hj. rewrite HPC. unfold executeID_control, Opcode.BEQ, Opcode.J.
    by rewrite Hj.
  - intros Hb. rewrite HPC. unfold executeID_control, Opcode.BEQ, Opcode.J.
    rewrite Hb. cbn [String.eqb Ascii.eqb Bool.eqb orb]. unfold beq_taken.
    destruct (strict_eq _ _); [done|]. cbn [PC with_PC]. by rewrite HPCs.
  - exact Hh.
  - by rewrite executeCycle_stalled.
  - destruct (executeCycle_slots s1) as (_ & _ & _ & _ & H).
    by rewrite H, Hh.
Qed.

Lemma control_instruction_costs_one_bubble_witness :
  PC (executeCycle jump_example) = VNum 8 /\
  opcode <$> IF_of (executeCycle jump_example) = Some "sub" /\
  IF_of (executeCycle (executeCycle jump_example)) = None.
Proof.
  assert (Hi : IF_of jump_example =
               Some (mkInstruction J_TYPE "j" None None None None (Some 2)
                       (Some "end"))) by (vm_compute; reflexivity).
  destruct (control_instruction_costs_one_bubble jump_example _ Hi
              (or_intror eq_refl)) as (_ & H2 & H3 & _ & _ & _ & H7).
  split; [exact (H3 eq_refl)|]. split; [|exact H7].
  rewrite H2 by (vm_compute; reflexivity).
  rewrite (H3 eq_refl). vm_compute. reflexivity.
Defined.




(** ** A load and a store from fetch to write-back *)









(** ** The text of an instruction and the parser *)








(** *** Strings put together *)

























(** *** Names, numbers and opcodes as tokens *)







(** *** The parser on words joined by spaces *)













(** ** Running and stopping *)

Lemma run_ok w : timers_ok w -> timers_ok (run w).
Proof.
  destruct w as [s t]. unfold timers_ok, run. cbn [fst snd].
  destruct (isRunning s) eqn:E; cbn [fst snd].
  - by rewrite E.
  - intros ((_ & Hnone) & Hlt). unfold setInterval.
    cbn [fst snd isRunning runInterval runSpeed active next_handle]. split.
    + exists (next_handle t). split; [done|]. by rewrite Hnone.
    + intros h. rewrite Hnone. intros [x Hx].
      apply lookup_insert_Some in Hx as [[<- _]|[_ Hx]]; [lia|].
      by rewrite lookup_empty in Hx.
Qed.

(** [stop] clears the one interval there is, whatever its period. *)
Lemma stop_interval_clears s t :
  (isRunning s = true ->
   exists h p, runInterval s = Some h /\ active t = {[h := p]}) ->
  (isRunning s = false -> runInterval s = None /\ active t = ∅) ->
  (forall h, is_Some (active t !! h) -> h < next_handle t) ->
  timers_ok (stop_interval (s, t)) /\
  isRunning (fst (stop_interval (s, t))) = false.
Proof.
  intros Hrun Hidle Hlt. unfold timers_ok, stop_interval. cbn [fst snd].
  rewrite stop_isRunning. split; [|done].
  destruct (isRunning s) eqn:E.
  - destruct (Hrun eq_refl) as (h & p & Hh & Ha). unfold stop. rewrite E.
    cbn [negb runInterval]. rewrite Hh. cbn [clearInterval active next_handle].
    rewrite Ha. split; [by rewrite delete_singleton_eq|].
    intros k. rewrite delete_singleton_eq, lookup_empty. by intros [x Hx].
  - rewrite (stop_idle s E). split; [by apply Hidle | exact Hlt].
Qed.

Lemma stop_interval_ok w :
  timers_ok w ->
  timers_ok (stop_interval w) /\ isRunning (fst (stop_interval w)) = false.
Proof.
  destruct w as [s t]. intros (H & Hlt). cbn [fst snd] in *.
  apply stop_interval_clears; [| |exact Hlt].
  - intros E. rewrite E in H. destruct H as (h & Hh & Ha). by exists h, (runSpeed s).
  - intros E. by rewrite E in H.
Qed.

Lemma setRunSpeed_ok speed w : timers_ok w -> timers_ok (setRunSpeed speed w).
Proof.
  destruct w as [s t]. intros (H & Hlt). cbn [fst snd] in *.
  unfold setRunSpeed. cbn [isRunning]. destruct (isRunning s) eqn:E.
  - apply run_ok. apply stop_interval_clears; cbn [isRunning runInterval].
    + intros _. destruct H as (h & Hh & Ha). by exists h, (runSpeed s).
    + intros E'. cbn [isRunning] in E'. congruence.
    + exact Hlt.
  - split; [exact H | exact Hlt].
Qed.

Lemma react_ok w e : timers_ok w -> timers_ok (react w e).
Proof.
  intros H. destruct e as [| |speed| |text|h| |]; cbn [react].
  - by apply run_ok.
  - by apply stop_interval_ok.
  - by apply setRunSpeed_ok.
  - destruct (stop_interval_ok w H) as ((H1 & Hlt) & Hrun).
    destruct w as [s t]. cbn [fst snd stop_interval] in *.
    rewrite Hrun in H1. split; [|exact Hlt]. cbn [fst snd]. unfold reset.
    cbn [isRunning runInterval]. by rewrite Hrun.
  - exact H.
  - destruct (active (snd w) !! h); [|exact H].
    destruct H as (H & Hlt). split; [|exact Hlt]. cbn [fst snd].
    destruct (executeCycle_run_state (fst w)) as (-> & -> & ->). exact H.
  - destruct (stop_interval_ok w H) as ((H1 & Hlt) & Hrun).
    split; [|exact Hlt]. cbn [fst snd].
    destruct (executeCycle_run_state (fst (stop_interval w))) as (-> & -> & ->).
    exact H1.
  - destruct (isRunning (fst w)); [by apply stop_interval_ok | by apply run_ok].
Qed.

Lemma page_ok (events : list event) : timers_ok (page events).
Proof.
  unfold page.
  assert (H0 : timers_ok (constructor, mkTimers ∅ 1)).
  { split; [by split|]. intros h. cbn. rewrite lookup_empty. by intros [x Hx]. }
  revert H0. generalize (constructor, mkTimers ∅ 1).
  induction events as [|e events IH]; intros w H; [exact H|].
  cbn [fold_left]. apply IH. by apply react_ok.
Qed.

(** X28. Timers.  Whatever sequence of [run], [stop], [setRunSpeed],
    [reset], program loads, button presses and interval callbacks the page
    goes through, the engine is driven by at most one interval: while
    [isRunning] there is exactly one, its handle is [runInterval] and its
    period the current [runSpeed] (a change of speed restarts it); while
    not running there is none and [runInterval] is null, so that a callback
    of any earlier handle does nothing. *)
Theorem at_most_one_interval (events : list event) :
  let w := page events in
  (isRunning (fst w) = true ->
   exists h, runInterval (fst w) = Some h /\
             active (snd w) = {[h := runSpeed (fst w)]}) /\
  (isRunning (fst w) = false ->
   runInterval (fst w) = None /\ active (snd w) = ∅ /\
   forall h, react w (Tick h) = w) /\
  (forall h, h <> default 0 (runInterval (fst w)) -> react w (Tick h) = w).
Proof.
  intros w. destruct (page_ok events) as (H & _). fold w in H.
  split; [|split].
  - intros E. by rewrite E in H.
  - intros E. rewrite E in H. destruct H as (H1 & H2).
    split; [exact H1|]. split; [exact H2|].
    intros h. cbn [react]. by rewrite H2, lookup_empty.
  - intros h Hh. cbn [react]. destruct (isRunning (fst w)).
    + destruct H as (k & Hk & Ha). rewrite Hk in Hh. cbn in Hh.
      by rewrite Ha, lookup_singleton_ne.
    + destruct H as (_ & H2). by rewrite H2, lookup_empty.
Qed.

Lemma at_most_one_interval_witness :
  active (snd (page [Run; SetRunSpeed 200; Tick 1; RunButton; Run])) =
  {[3 := 200]}.
Proof.
  destruct (at_most_one_interval [Run; SetRunSpeed 200; Tick 1; RunButton; Run])
    as (H & _).
  destruct H as (h & Hh & Ha); [vm_compute; reflexivity|].
  rewrite Ha.
  assert (E : runInterval (fst (page [Run; SetRunSpeed 200; Tick 1; RunButton; Run]))
              = Some 3) by (vm_compute; reflexivity).
  rewrite E in Hh. injection Hh as <-.
  assert (E2 : runSpeed (fst (page [Run; SetRunSpeed 200; Tick 1; RunButton; Run]))
               = 200) by (vm_compute; reflexivity).
  by rewrite E2.
Defined.
